(** * Model comparison and feature importance (notebook 03, linear regression)

    A shallow embedding of the code cells of
    [src/03-linear-regression-reg_ML.ipynb]: the metric bundle
    [calculate_metrics], the training loop that fills [results] and
    [predictions], the selection of [best_model_name], the
    [feature_importance] frame with its printed summary, and the cell that
    pickles the winner.

    Python floats are IEEE binary64 values, so every number is a primitive
    [float]; an exception is a [Raise] of the error monad [res].  The
    estimators themselves (their [fit] and [predict]) are library services
    and stay parameters of the development.  The few library routines whose
    behaviour the cells depend on (metrics of scikit-learn, [mean] and
    [argsort] of numpy, [sort_values] of pandas, the builtin [max]) are
    modelled after their documented behaviour, each in a module of its
    library's name. *)

From Stdlib Require Uint63.
From Stdlib Require Import String ZArith Bool Lia Floats List.
From Stdlib Require Import Permutation Sorted.
Import ListNotations.

Set Warnings "-inexact-float".

(** ** Exceptions *)

Inductive exn : Set :=
| ValueError
| KeyError
| IndexError
| NameError
| NotFittedError
| OSError
| PicklingError.

Inductive res (A : Type) : Type :=
| Ok (a : A)
| Raise (e : exn).

Arguments Ok {A} a.
Arguments Raise {A} e.

Definition bind {A B : Type} (m : res A) (k : A -> res B) : res B :=
  match m with
  | Ok a => k a
  | Raise e => Raise e
  end.

Notation "x <- m ;; k" := (bind m (fun x => k))
  (at level 61, m at next level, right associativity).

Definition vec := list float.

(** [float(n)] of a length or a count. *)
Definition float_of_nat (n : nat) : float :=
  PrimFloat.of_uint63 (Uint63.of_Z (Z.of_nat n)).

(** Elementwise binary operation of two arrays of one shape. *)
Fixpoint zip_with {A B C : Type} (f : A -> B -> C) (a : list A) (b : list B) : list C :=
  match a, b with
  | x :: a', y :: b' => f x y :: zip_with f a' b'
  | _, _ => []
  end.

(** ** Python builtins: insertion-ordered [dict], [max] with a key, [sum] *)

Module Py.

Definition dict (V : Type) : Type := list (string * V).

Fixpoint dict_get {V : Type} (d : dict V) (k : string) : res V :=
  match d with
  | [] => Raise KeyError
  | (k', v) :: d' => if String.eqb k k' then Ok v else dict_get d' k
  end.

(** [d[k] = v]: an existing key keeps its place, a new key goes last. *)
Fixpoint dict_set {V : Type} (d : dict V) (k : string) (v : V) : dict V :=
  match d with
  | [] => [(k, v)]
  | (k', v') :: d' =>
      if String.eqb k k' then (k', v) :: d' else (k', v') :: dict_set d' k v
  end.

Definition keys {V : Type} (d : dict V) : list string := map fst d.

Definition items {V : Type} (d : dict V) : list (string * V) := d.

(** The loop of [max(iterable, key=...)]: the held item is replaced only
    when the new key compares strictly greater ([val > maxval]). *)
Fixpoint max_from {A : Type} (key : A -> res float) (maxitem : A) (maxval : float)
    (it : list A) : res A :=
  match it with
  | [] => Ok maxitem
  | item :: it' =>
      val <- key item ;;
      if (maxval <? val)%float then max_from key item val it'
      else max_from key maxitem maxval it'
  end.

Definition max {A : Type} (key : A -> res float) (it : list A) : res A :=
  match it with
  | [] => Raise ValueError
  | item :: it' => val <- key item ;; max_from key item val it'
  end.

(** [sum] of an array of booleans: [True] counts 1. *)
Definition sum_bool (l : list bool) : nat :=
  fold_left (fun acc (b : bool) => if b then S acc else acc) l 0.

End Py.

(** ** numpy *)

Module np.

(** [ndarray.sum]; numpy adds in blocks, which changes only the rounding. *)
Definition sum (a : vec) : float := fold_left PrimFloat.add a zero.

(** [ndarray.mean]: the sum divided by the count. *)
Definition mean (a : vec) : float := (sum a / float_of_nat (length a))%float.

Definition square (x : float) : float := (x * x)%float.

(** The order of the sort kernels on doubles: NaN sorts last. *)
Definition less (a b : float) : bool :=
  (a <? b)%float || (is_nan b && negb (is_nan a)).

(** *** [argsort] of kind [quicksort]

    The kernel of numpy's generic build ([aquicksort] of npysort): an
    introsort over the index array [tosort] that partitions ranges of more
    than [SMALL_QUICKSORT + 1] entries around a median of three, sorts
    shorter ranges by insertion, and falls back to [aheapsort] when the
    depth budget of a range is used up.  Pointers into [tosort] are
    positions; every loop gets the array's length as fuel, which its
    sentinels never use up. *)

Definition SMALL_QUICKSORT : nat := 16.

Definition get (tosort : list nat) (i : nat) : nat := nth i tosort 0.

Definition put (tosort : list nat) (i x : nat) : list nat :=
  firstn i tosort ++ x :: skipn (S i) tosort.

Definition INTP_SWAP (tosort : list nat) (i j : nat) : list nat :=
  put (put tosort i (get tosort j)) j (get tosort i).

Definition key (v : vec) (tosort : list nat) (i : nat) : float :=
  nth (get tosort i) v nan.

(** [do ++pi; while (less(v[*pi], vp));] *)
Fixpoint scan_up (fuel : nat) (v : vec) (tosort : list nat) (vp : float) (pi : nat) : nat :=
  match fuel with
  | O => pi
  | S fuel' =>
      if less (key v tosort (S pi)) vp then scan_up fuel' v tosort vp (S pi) else S pi
  end.

(** [do --pj; while (less(vp, v[*pj]));] *)
Fixpoint scan_down (fuel : nat) (v : vec) (tosort : list nat) (vp : float) (pj : nat) : nat :=
  match fuel with
  | O => pj
  | S fuel' =>
      if less vp (key v tosort (pj - 1)) then scan_down fuel' v tosort vp (pj - 1)
      else pj - 1
  end.

(** The [for (;;)] loop of the partition; returns the array and [pi]. *)
Fixpoint exchange (fuel : nat) (v : vec) (tosort : list nat) (vp : float) (pi pj : nat)
    : list nat * nat :=
  match fuel with
  | O => (tosort, pi)
  | S fuel' =>
      let pi' := scan_up (length tosort) v tosort vp pi in
      let pj' := scan_down (length tosort) v tosort vp pj in
      if pj' <=? pi' then (tosort, pi')
      else exchange fuel' v (INTP_SWAP tosort pi' pj') vp pi' pj'
  end.

Definition partition (v : vec) (tosort : list nat) (pl pr : nat) : list nat * nat :=
  let pm := pl + Nat.div2 (pr - pl) in
  let t1 := if less (key v tosort pm) (key v tosort pl) then INTP_SWAP tosort pm pl else tosort in
  let t2 := if less (key v t1 pr) (key v t1 pm) then INTP_SWAP t1 pr pm else t1 in
  let t3 := if less (key v t2 pm) (key v t2 pl) then INTP_SWAP t2 pm pl else t2 in
  let vp := key v t3 pm in
  let pj := pr - 1 in
  let t4 := INTP_SWAP t3 pm pj in
  let '(t5, pi) := exchange (length tosort) v t4 vp pl pj in
  (INTP_SWAP t5 pi (pr - 1), pi).

(** [while (pj > pl && less(vp, v[*pk])) *pj-- = *pk--;  *pj = vi;] *)
Fixpoint insert_back (fuel : nat) (v : vec) (tosort : list nat) (pl : nat) (vi : nat)
    (pj : nat) : list nat :=
  match fuel with
  | O => put tosort pj vi
  | S fuel' =>
      if (pl <? pj) && less (nth vi v nan) (key v tosort (pj - 1))
      then insert_back fuel' v (put tosort pj (get tosort (pj - 1))) pl vi (pj - 1)
      else put tosort pj vi
  end.

(** [for (pi = pl + 1; pi <= pr; ++pi)] *)
Fixpoint insertion_sort (fuel : nat) (v : vec) (tosort : list nat) (pl pr pi : nat) : list nat :=
  match fuel with
  | O => tosort
  | S fuel' =>
      if pi <=? pr
      then insertion_sort fuel' v
             (insert_back (length tosort) v tosort pl (get tosort pi) pi) pl pr (S pi)
      else tosort
  end.

(** The sift loop of [aheapsort] on the one-based array [a]; ends with
    [a[i] = tmp]. *)
Fixpoint sift (fuel : nat) (v : vec) (a : list nat) (tmp i j n : nat) : list nat :=
  match fuel with
  | O => put a (i - 1) tmp
  | S fuel' =>
      if n <? j then put a (i - 1) tmp
      else
        let j' :=
          if (j <? n) && less (key v a (j - 1)) (key v a j) then S j else j in
        if less (nth tmp v nan) (key v a (j' - 1))
        then sift fuel' v (put a (i - 1) (get a (j' - 1))) tmp j' (j' + j') n
        else put a (i - 1) tmp
  end.

(** [for (l = n >> 1; l > 0; --l)] *)
Fixpoint heapify (v : vec) (a : list nat) (l n : nat) : list nat :=
  match l with
  | O => a
  | S l' => heapify v (sift (length a) v a (get a (l - 1)) l (l + l) n) l' n
  end.

(** [for (; n > 1;)] *)
Fixpoint extract (fuel : nat) (v : vec) (a : list nat) (n : nat) : list nat :=
  match fuel with
  | O => a
  | S fuel' =>
      if 1 <? n then
        let tmp := get a (n - 1) in
        let a' := put a (n - 1) (get a 0) in
        extract fuel' v (sift (length a) v a' tmp 1 2 (n - 1)) (n - 1)
      else a
  end.

Definition aheapsort (v : vec) (tosort : list nat) (pl n : nat) : list nat :=
  let a := firstn n (skipn pl tosort) in
  let a' := extract n v (heapify v a (Nat.div2 n) n) n in
  firstn pl tosort ++ a' ++ skipn (pl + n) tosort.

(** The outer [while (1)] with its explicit stack of pending ranges;
    [at_top] tells the head of the outer loop (where the depth budget is
    tested) from the inner partition loop. *)
Fixpoint aquicksort_loop (fuel : nat) (v : vec) (tosort : list nat) (pl pr : nat)
    (cdepth : Z) (stack : list (nat * nat * Z)) (at_top : bool) : list nat :=
  match fuel with
  | O => tosort
  | S fuel' =>
      if at_top && (cdepth <? 0)%Z then
        let t' := aheapsort v tosort pl (pr - pl + 1) in
        match stack with
        | [] => t'
        | (pl', pr', d') :: stack' => aquicksort_loop fuel' v t' pl' pr' d' stack' true
        end
      else if SMALL_QUICKSORT <? pr - pl then
        let '(t', pi) := partition v tosort pl pr in
        let cdepth' := (cdepth - 1)%Z in
        if pi - pl <? pr - pi
        then aquicksort_loop fuel' v t' pl (pi - 1) cdepth' ((pi + 1, pr, cdepth') :: stack) false
        else aquicksort_loop fuel' v t' (pi + 1) pr cdepth' ((pl, pi - 1, cdepth') :: stack) false
      else
        let t' := insertion_sort (length tosort) v tosort pl pr (S pl) in
        match stack with
        | [] => t'
        | (pl', pr', d') :: stack' => aquicksort_loop fuel' v t' pl' pr' d' stack' true
        end
  end.

Definition aquicksort (v : vec) : list nat :=
  let num := length v in
  aquicksort_loop (S (num + num)) v (seq 0 num) 0 (num - 1)
    (2 * Z.of_nat (Nat.log2 num))%Z [] true.

End np.

(** ** scikit-learn metrics *)

Module sklearn.

(** Input validation shared by the regression metrics
    ([check_consistent_length], [check_array]): equal lengths, at least one
    sample, no NaN and no infinity; anything else raises [ValueError]. *)
Definition check_reg_targets (y_true y_pred : vec) : res unit :=
  if negb (length y_true =? length y_pred) then Raise ValueError
  else if length y_true =? 0 then Raise ValueError
  else if negb (forallb is_finite y_true && forallb is_finite y_pred) then Raise ValueError
  else Ok tt.

Definition mean_squared_error (y_true y_pred : vec) : res float :=
  _ <- check_reg_targets y_true y_pred ;;
  Ok (np.mean (map np.square (zip_with PrimFloat.sub y_true y_pred))).

Definition mean_absolute_error (y_true y_pred : vec) : res float :=
  _ <- check_reg_targets y_true y_pred ;;
  Ok (np.mean (map PrimFloat.abs (zip_with PrimFloat.sub y_pred y_true))).

(** [r2_score] with its defaults: NaN for fewer than two samples; a zero
    residual sum scores 1.0, a zero total sum with a non-zero residual sum
    scores 0.0 ([force_finite]). *)
Definition r2_score (y_true y_pred : vec) : res float :=
  _ <- check_reg_targets y_true y_pred ;;
  if length y_pred <? 2 then Ok nan
  else
    let numerator := np.sum (map np.square (zip_with PrimFloat.sub y_true y_pred)) in
    let y_mean := np.mean y_true in
    let denominator :=
      np.sum (map np.square (map (fun y => (y - y_mean)%float) y_true)) in
    if negb (numerator =? 0)%float then
      if negb (denominator =? 0)%float then Ok (1 - numerator / denominator)%float
      else Ok 0%float
    else Ok 1%float.

End sklearn.

(** ** pandas *)

Module pd.

(** [Series.mean] with its default [skipna=True], which is what [np.mean]
    calls on a Series: NaN entries are left out of the sum and of the count;
    a Series with no other entry has mean NaN. *)
Definition nanmean (a : vec) : float :=
  let count := length (filter (fun x => negb (is_nan x)) a) in
  if count =? 0 then nan
  else (np.sum (map (fun x => if is_nan x then zero else x) a) / float_of_nat count)%float.

(** Boolean-mask indexing [a[mask]]. *)
Fixpoint select {A : Type} (mask : list bool) (a : list A) : list A :=
  match mask, a with
  | b :: mask', x :: a' => if b then x :: select mask' a' else select mask' a'
  | _, _ => []
  end.

(** Positional indexing [a[indexer]]; a position out of range raises. *)
Fixpoint take {A : Type} (a : list A) (indexer : list nat) : res (list A) :=
  match indexer with
  | [] => Ok []
  | i :: indexer' =>
      match nth_error a i with
      | Some x => xs <- take a indexer' ;; Ok (x :: xs)
      | None => Raise IndexError
      end
  end.

(** The array [nargsort] hands to the sort kernel: the entries that are
    not NaN, reversed for a descending sort. *)
Definition non_nans (items : vec) (ascending : bool) : vec :=
  let non_nans := select (map negb (map is_nan items)) items in
  if ascending then non_nans else rev non_nans.

(** [nargsort(items, kind, ascending, na_position='last')]: NaN entries are
    set aside and go last; for a descending sort the rest is reversed,
    sorted ascending by the kernel of [kind], and reversed again. *)
Definition nargsort (argsort : vec -> list nat) (items : vec) (ascending : bool)
    : res (list nat) :=
  let idx := seq 0 (length items) in
  let mask := map is_nan items in
  let non_nan_idx := select (map negb mask) idx in
  let nan_idx := select mask idx in
  let non_nan_idx := if ascending then non_nan_idx else rev non_nan_idx in
  indexer <- take non_nan_idx (argsort (non_nans items ascending)) ;;
  let indexer := if ascending then indexer else rev indexer in
  Ok (indexer ++ nan_idx).

(** [DataFrame.sort_values(by, ascending=...)] on one column; [argsort] is
    the kernel of its [kind] (default ['quicksort']). *)
Definition sort_values {A : Type} (argsort : vec -> list nat) (by_ : A -> float)
    (ascending : bool) (df : list A) : res (list A) :=
  indexer <- nargsort argsort (map by_ df) ascending ;;
  take df indexer.

(** [df.iloc[i]] *)
Definition iloc {A : Type} (df : list A) (i : nat) : res A :=
  match nth_error df i with
  | Some x => Ok x
  | None => Raise IndexError
  end.

(** [df.head(n)] *)
Definition head {A : Type} (n : nat) (df : list A) : list A := firstn n df.

End pd.

(** ** Cell 3: the metric bundle *)

Record metrics : Set := {
  R2 : float;
  RMSE : float;
  MAE : float;
  MAPE : float
}.

(** [y_true] is a pandas Series and [y_pred] an array, so the quotient of
    the MAPE line is a Series and [np.mean] of it skips NaN. *)
Definition calculate_metrics (y_true y_pred : vec) : res metrics :=
  mse <- sklearn.mean_squared_error y_true y_pred ;;
  let rmse := PrimFloat.sqrt mse in
  mae <- sklearn.mean_absolute_error y_true y_pred ;;
  r2 <- sklearn.r2_score y_true y_pred ;;
  let mape :=
    (pd.nanmean
       (map PrimFloat.abs
          (zip_with PrimFloat.div (zip_with PrimFloat.sub y_true y_pred) y_true))
     * 100)%float in
  Ok {| R2 := r2; RMSE := rmse; MAE := mae; MAPE := mape |}.

(** ** The notebook *)

(** A numeric [DataFrame]: column labels and rows. *)
Record frame : Set := {
  columns : list string;
  rows : list vec
}.

(** The record stored under each name in [results]. *)
Record result : Set := {
  Train_R2 : float;
  Test_R2 : float;
  Test_RMSE : float;
  Test_MAE : float;
  Overfitting : float
}.

(** A row of the [feature_importance] frame. *)
Record importance : Set := {
  Feature : string;
  Coefficient : float;
  Abs_Coefficient : float
}.

(** What a [print] writes; numbers are kept as values, the format strings
    ([:.4f], [:15]) are not modelled. *)
Inductive output : Set :=
| Text (s : string)
| ComparisonRow (name : string) (r2 rmse overfitting : float)
| BestModel (name : string) (r2 : float)
| ImportanceHeader (name : string)
| Top10 (table : list (string * float))
| TotalFeatures (n : nat)
| NonZeroFeatures (n : nat)
| PositiveImpact (n : nat)
| NegativeImpact (n : nat)
| StrongestPositive (feature : string) (coefficient : float)
| StrongestNegative (feature : string) (coefficient : float)
| SummaryLine (label : string) (value : float)
| SummaryCount (label : string) (n : nat)
| SummaryName (label : string) (name : string)
| SavedTo (name path : string) (r2 : float).

Definition model_path : string :=
  "../models/Linear_regressions_models/heart_disease_linear_regression.pkl".

Section Notebook.

(** The estimator objects of scikit-learn with their constructors, [fit]
    (which returns the trained object), [predict] and [coef_]. *)
Variable estimator : Type.
Variable LinearRegression : estimator.
Variable Ridge : float -> estimator.
Variable Lasso : float -> estimator.
Variable ElasticNet : float -> float -> estimator.
Variable fit : estimator -> frame -> vec -> res estimator.
Variable predict : estimator -> frame -> res vec.
Variable coef_ : estimator -> res vec.

(** The [argsort] kernel behind [sort_values]'s default [kind='quicksort']. *)
Variable quicksort : vec -> list nat.

(** What the operating system answers to [open(path, 'wb')] ([OSError]
    when the directory is missing or not writable: the cell creates none),
    and what [pickle.dump] answers for an object. *)
Variable open_wb : string -> res unit.
Variable pickle_dump : estimator -> res unit.

(** The variables of the kernel session, the console and the files
    written by [pickle.dump]. *)
Record notebook : Type := {
  X_train : frame;
  X_test : frame;
  y_train : vec;
  y_test : vec;
  models : Py.dict estimator;
  results : Py.dict result;
  predictions : Py.dict vec;
  best : option (string * estimator);
  stdout : list output;
  disk : list (string * estimator)
}.

Definition print (nb : notebook) (lines : list output) : notebook :=
  {| X_train := X_train nb; X_test := X_test nb;
     y_train := y_train nb; y_test := y_test nb;
     models := models nb; results := results nb; predictions := predictions nb;
     best := best nb; stdout := stdout nb ++ lines; disk := disk nb |}.

(** *** Cell 3 *)

Definition models_literal : Py.dict estimator :=
  Py.dict_set
    (Py.dict_set
       (Py.dict_set
          (Py.dict_set [] "Linear Regression" LinearRegression)
          "Ridge" (Ridge 1))
       "Lasso" (Lasso 1))
    "ElasticNet" (ElasticNet 1 0.5).

(** The body of [for name, model in models.items()]. *)
Definition train_and_evaluate (nb : notebook) (name : string) (model : estimator)
    : res notebook :=
  model <- fit model (X_train nb) (y_train nb) ;;
  y_train_pred <- predict model (X_train nb) ;;
  y_test_pred <- predict model (X_test nb) ;;
  let predictions' := Py.dict_set (predictions nb) name y_test_pred in
  train_metrics <- calculate_metrics (y_train nb) y_train_pred ;;
  test_metrics <- calculate_metrics (y_test nb) y_test_pred ;;
  let results' :=
    Py.dict_set (results nb) name
      {| Train_R2 := R2 train_metrics;
         Test_R2 := R2 test_metrics;
         Test_RMSE := RMSE test_metrics;
         Test_MAE := MAE test_metrics;
         Overfitting := (R2 train_metrics - R2 test_metrics)%float |} in
  Ok {| X_train := X_train nb; X_test := X_test nb;
        y_train := y_train nb; y_test := y_test nb;
        models := Py.dict_set (models nb) name model;
        results := results'; predictions := predictions';
        best := best nb; stdout := stdout nb; disk := disk nb |}.

(** The loop over [models.items()]; each estimator object sits under one
    name, so the items are those of the dict as the loop starts. *)
Fixpoint for_items (items : list (string * estimator)) (nb : notebook) : res notebook :=
  match items with
  | [] => Ok nb
  | (name, model) :: items' =>
      nb' <- train_and_evaluate nb name model ;;
      for_items items' nb'
  end.

Definition comparison_loop (nb : notebook) : res notebook :=
  for_items (Py.items (models nb)) nb.

Definition best_model_name (results : Py.dict result) : res string :=
  Py.max (fun k => r <- Py.dict_get results k ;; Ok (Test_R2 r)) (Py.keys results).

Definition display_results (results : Py.dict result) : list output :=
  [Text "Model Comparison:"; Text "----------------------------------------------------------------------"]
  ++ map (fun '(name, m) => ComparisonRow name (Test_R2 m) (Test_RMSE m) (Overfitting m))
       (Py.items results).

(** [models = {...}], [results = {}], [predictions = {}] *)
Definition cell3_assignments (nb : notebook) : notebook :=
  {| X_train := X_train nb; X_test := X_test nb;
     y_train := y_train nb; y_test := y_test nb;
     models := models_literal; results := []; predictions := [];
     best := best nb; stdout := stdout nb; disk := disk nb |}.

Definition cell3 (nb : notebook) : res notebook :=
  nb1 <- comparison_loop (cell3_assignments nb) ;;
  let nb2 := print nb1 (display_results (results nb1)) in
  name <- best_model_name (results nb2) ;;
  r <- Py.dict_get (results nb2) name ;;
  let nb3 := print nb2 [BestModel name (Test_R2 r)] in
  best_model <- Py.dict_get (models nb3) name ;;
  Ok {| X_train := X_train nb3; X_test := X_test nb3;
        y_train := y_train nb3; y_test := y_test nb3;
        models := models nb3; results := results nb3; predictions := predictions nb3;
        best := Some (name, best_model); stdout := stdout nb3; disk := disk nb3 |}.

(** *** Cell 4 *)

(** [pd.DataFrame({...})]: columns of one length, or [ValueError]. *)
Definition DataFrame (feature_names : list string) (coefficients : vec)
    : res (list importance) :=
  if length feature_names =? length coefficients then
    Ok (zip_with
          (fun f c => {| Feature := f; Coefficient := c; Abs_Coefficient := PrimFloat.abs c |})
          feature_names coefficients)
  else Raise ValueError.

Definition feature_importance (feature_names : list string) (coefficients : vec)
    : res (list importance) :=
  df <- DataFrame feature_names coefficients ;;
  pd.sort_values quicksort Abs_Coefficient false df.

Definition positive_count (coefficients : vec) : nat :=
  Py.sum_bool (map (fun c => (0 <? c)%float) coefficients).

Definition negative_count (coefficients : vec) : nat :=
  Py.sum_bool (map (fun c => (c <? 0)%float) coefficients).

Definition nonzero_count (coefficients : vec) : nat :=
  Py.sum_bool (map (fun c => (1e-6 <? PrimFloat.abs c)%float) coefficients).

Definition negative_features (feature_importance : list importance) : list importance :=
  filter (fun r => (Coefficient r <? 0)%float) feature_importance.

(** The prints of the cell from ["Model Summary:"] on. *)
Definition model_summary (feature_names : list string) (coefficients : vec)
    (feature_importance : list importance) : res (list output) :=
  let lines :=
    [Text "Model Summary:";
     TotalFeatures (length feature_names);
     NonZeroFeatures (nonzero_count coefficients);
     PositiveImpact (positive_count coefficients);
     NegativeImpact (negative_count coefficients)] in
  if 0 <? length feature_importance then
    top <- pd.iloc feature_importance 0 ;;
    let lines := lines ++ [StrongestPositive (Feature top) (Coefficient top)] in
    let negative_features := negative_features feature_importance in
    if 0 <? length negative_features then
      neg <- pd.iloc negative_features 0 ;;
      Ok (lines ++ [StrongestNegative (Feature neg) (Coefficient neg)])
    else Ok lines
  else Ok lines.

Definition importance_report (best_model_name : string) (feature_names : list string)
    (coefficients : vec) : res (list output) :=
  feature_importance <- feature_importance feature_names coefficients ;;
  summary <- model_summary feature_names coefficients feature_importance ;;
  Ok ([ImportanceHeader best_model_name;
       Text "Top 10 Most Important Features:";
       Top10 (map (fun r => (Feature r, Coefficient r)) (pd.head 10 feature_importance))]
      ++ summary).

Definition cell4 (nb : notebook) : res notebook :=
  match best nb with
  | None => Raise NameError
  | Some (best_model_name, best_model) =>
      let feature_names := columns (X_train nb) in
      coefficients <- coef_ best_model ;;
      lines <- importance_report best_model_name feature_names coefficients ;;
      Ok (print nb lines)
  end.

(** *** Cell 5: the final summary *)

Definition cell5 (nb : notebook) : res notebook :=
  match best nb with
  | None => Raise NameError
  | Some (best_model_name, _) =>
      r <- Py.dict_get (results nb) best_model_name ;;
      Ok (print nb
            [Text "Heart Disease Prediction Model Summary";
             Text "========================================";
             SummaryName "Best Model" best_model_name;
             SummaryCount "Training Samples" (length (rows (X_train nb)));
             SummaryCount "Test Samples" (length (rows (X_test nb)));
             SummaryCount "Features" (length (columns (X_train nb)));
             SummaryLine "Test R2 Score" (Test_R2 r);
             SummaryLine "Test RMSE" (Test_RMSE r);
             SummaryLine "Overfitting Score" (Overfitting r);
             Text "Regularization comparison completed. Best model selected for deployment."])
  end.

(** *** Cell 6: [pickle.dump(best_model, f)]

    The file is opened before [best_model] is looked up, and the winner is
    on the disk once [pickle.dump] has returned. *)

Definition cell6 (nb : notebook) : res notebook :=
  _ <- open_wb model_path ;;
  match best nb with
  | None => Raise NameError
  | Some (best_model_name, best_model) =>
      _ <- pickle_dump best_model ;;
      let nb' :=
        {| X_train := X_train nb; X_test := X_test nb;
           y_train := y_train nb; y_test := y_test nb;
           models := models nb; results := results nb; predictions := predictions nb;
           best := best nb; stdout := stdout nb;
           disk := (model_path, best_model) :: disk nb |} in
      r <- Py.dict_get (results nb) best_model_name ;;
      Ok (print nb' [Text "Best model saved successfully:";
                     SavedTo best_model_name model_path (Test_R2 r)])
  end.

End Notebook.

Arguments X_train {estimator} n.
Arguments X_test {estimator} n.
Arguments y_train {estimator} n.
Arguments y_test {estimator} n.
Arguments models {estimator} n.
Arguments results {estimator} n.
Arguments predictions {estimator} n.
Arguments best {estimator} n.
Arguments stdout {estimator} n.
Arguments disk {estimator} n.
Arguments print {estimator} nb lines.
Arguments models_literal {estimator} LinearRegression Ridge Lasso ElasticNet.
Arguments train_and_evaluate {estimator} fit predict nb name model.
Arguments for_items {estimator} fit predict items nb.
Arguments comparison_loop {estimator} fit predict nb.
Arguments cell3_assignments {estimator} LinearRegression Ridge Lasso ElasticNet nb.
Arguments cell3 {estimator} LinearRegression Ridge Lasso ElasticNet fit predict nb.
Arguments cell4 {estimator} coef_ quicksort nb.
Arguments cell5 {estimator} nb.
Arguments cell6 {estimator} open_wb pickle_dump nb.

(** ** Library calls that act on the session

    [model.fit(X_train, y_train)] and [model.predict(X)] run library code
    on objects of the session: nothing in the language keeps them from
    changing a frame in place or from writing a file.  In this second
    reading of cell 3 a library call is a function of the session that
    returns its result together with the session it leaves behind; the
    cell above is the case of calls that leave the session as they found
    it ([returning]). *)

Module InPlace.

Section Notebook.

Variable estimator : Type.
Variable LinearRegression : estimator.
Variable Ridge : float -> estimator.
Variable Lasso : float -> estimator.
Variable ElasticNet : float -> float -> estimator.
Variable fit :
  estimator -> frame -> vec -> notebook estimator -> res (estimator * notebook estimator).
Variable predict :
  estimator -> frame -> notebook estimator -> res (vec * notebook estimator).

(** The body of [for name, model in models.items()]. *)
Definition train_and_evaluate (nb : notebook estimator) (name : string) (model : estimator)
    : res (notebook estimator) :=
  fitted <- fit model (X_train nb) (y_train nb) nb ;;
  let '(model, nb) := fitted in
  predicted <- predict model (X_train nb) nb ;;
  let '(y_train_pred, nb) := predicted in
  predicted <- predict model (X_test nb) nb ;;
  let '(y_test_pred, nb) := predicted in
  let predictions' := Py.dict_set (predictions nb) name y_test_pred in
  train_metrics <- calculate_metrics (y_train nb) y_train_pred ;;
  test_metrics <- calculate_metrics (y_test nb) y_test_pred ;;
  let results' :=
    Py.dict_set (results nb) name
      {| Train_R2 := R2 train_metrics;
         Test_R2 := R2 test_metrics;
         Test_RMSE := RMSE test_metrics;
         Test_MAE := MAE test_metrics;
         Overfitting := (R2 train_metrics - R2 test_metrics)%float |} in
  Ok {| X_train := X_train nb; X_test := X_test nb;
        y_train := y_train nb; y_test := y_test nb;
        models := Py.dict_set (models nb) name model;
        results := results'; predictions := predictions';
        best := best nb; stdout := stdout nb; disk := disk nb |}.

Fixpoint for_items (items : list (string * estimator)) (nb : notebook estimator)
    : res (notebook estimator) :=
  match items with
  | [] => Ok nb
  | (name, model) :: items' =>
      nb' <- train_and_evaluate nb name model ;;
      for_items items' nb'
  end.

Definition comparison_loop (nb : notebook estimator) : res (notebook estimator) :=
  for_items (Py.items (models nb)) nb.

Definition cell3 (nb : notebook estimator) : res (notebook estimator) :=
  nb1 <- comparison_loop (cell3_assignments LinearRegression Ridge Lasso ElasticNet nb) ;;
  let nb2 := print nb1 (display_results (results nb1)) in
  name <- best_model_name (results nb2) ;;
  r <- Py.dict_get (results nb2) name ;;
  let nb3 := print nb2 [BestModel name (Test_R2 r)] in
  best_model <- Py.dict_get (models nb3) name ;;
  Ok {| X_train := X_train nb3; X_test := X_test nb3;
        y_train := y_train nb3; y_test := y_test nb3;
        models := models nb3; results := results nb3; predictions := predictions nb3;
        best := Some (name, best_model); stdout := stdout nb3; disk := disk nb3 |}.

End Notebook.

Arguments train_and_evaluate {estimator} fit predict nb name model.
Arguments for_items {estimator} fit predict items nb.
Arguments comparison_loop {estimator} fit predict nb.
Arguments cell3 {estimator} LinearRegression Ridge Lasso ElasticNet fit predict nb.

(** A library call that leaves the session as it found it. *)
Definition returning {estimator A : Type} (call : res A) (nb : notebook estimator)
    : res (A * notebook estimator) :=
  a <- call ;; Ok (a, nb).

End InPlace.

(** ** A stand-in estimator and sample data

    Used to run the cells on concrete inputs: a linear predictor whose one
    weight is preset from its hyper-parameters, so that [fit] only checks
    the shapes and marks the object trained. *)

Module Toy.

Record linear : Set := {
  weights : vec;
  intercept : float;
  fitted : bool
}.

Definition dot (w x : vec) : float := np.sum (zip_with PrimFloat.mul w x).

Definition LinearRegression : linear :=
  {| weights := [1.18221%float]; intercept := 0; fitted := false |}.

Definition Ridge (alpha : float) : linear :=
  {| weights := [(1.18221 - 0.0011 * alpha)%float]; intercept := 0; fitted := false |}.

Definition Lasso (alpha : float) : linear :=
  {| weights := [(1.18221 - 0.86059 * alpha)%float]; intercept := 0; fitted := false |}.

Definition ElasticNet (alpha l1_ratio : float) : linear :=
  {| weights := [(1.18221 - 1.32484 * alpha * l1_ratio)%float];
     intercept := 0; fitted := false |}.

Definition fit (model : linear) (X : frame) (y : vec) : res linear :=
  if length (rows X) =? length y then
    Ok {| weights := weights model; intercept := intercept model; fitted := true |}
  else Raise ValueError.

Definition predict (model : linear) (X : frame) : res vec :=
  if fitted model then
    Ok (map (fun x => (dot (weights model) x + intercept model)%float) (rows X))
  else Raise NotFittedError.

Definition coef_ (model : linear) : res vec :=
  if fitted model then Ok (weights model) else Raise NotFittedError.

Definition session : notebook linear :=
  {| X_train := {| columns := ["x"%string]; rows := [[(-1)%float]; [1%float]] |};
     X_test := {| columns := ["x"%string]; rows := [[(-1)%float]; [1%float]] |};
     y_train := [(-1.2)%float; 1.2%float];
     y_test := [(-1)%float; 1%float];
     models := models_literal LinearRegression Ridge Lasso ElasticNet;
     results := []; predictions := [];
     best := None; stdout := []; disk := [] |}.

(** A [fit] that changes its training frame in place (it shifts every
    entry by one), as an estimator constructed with [copy_X=False] may. *)
Definition fit_in_place (model : linear) (X : frame) (y : vec) (nb : notebook linear)
    : res (linear * notebook linear) :=
  model <- fit model X y ;;
  Ok (model,
      {| X_train := {| columns := columns (X_train nb);
                       rows := map (map (fun x => (x - 1)%float)) (rows (X_train nb)) |};
         X_test := X_test nb; y_train := y_train nb; y_test := y_test nb;
         models := models nb; results := results nb; predictions := predictions nb;
         best := best nb; stdout := stdout nb; disk := disk nb |}).

(** A file system in which the directories [dirs] exist: a file can be
    opened for writing when its directory is one of them. *)
Definition slash : Ascii.ascii := Ascii.ascii_of_nat 47.

Fixpoint has_slash (path : string) : bool :=
  match path with
  | EmptyString => false
  | String c rest => Ascii.eqb c slash || has_slash rest
  end.

(** [os.path.dirname] *)
Fixpoint dirname (path : string) : string :=
  match path with
  | EmptyString => EmptyString
  | String c rest => if has_slash rest then String c (dirname rest) else EmptyString
  end.

Definition open_wb (dirs : list string) (path : string) : res unit :=
  if existsb (String.eqb (dirname path)) dirs then Ok tt else Raise OSError.

Definition pickle_dump (model : linear) : res unit := Ok tt.

(** The comparison as the notebook's own run printed it: test R², RMSE and
    overfitting score of each estimator (the train R² follows from them;
    the run does not print the MAE, which is filled in). *)
Definition printed_results : Py.dict result :=
  [("Linear Regression"%string,
    {| Train_R2 := 0.9698; Test_R2 := 0.9668; Test_RMSE := 0.3271;
       Test_MAE := 0.25; Overfitting := 0.0030 |});
   ("Ridge"%string,
    {| Train_R2 := 0.9697; Test_R2 := 0.9672; Test_RMSE := 0.3251;
       Test_MAE := 0.25; Overfitting := 0.0025 |});
   ("Lasso"%string,
    {| Train_R2 := 0.5351; Test_R2 := 0.5398; Test_RMSE := 1.2184;
       Test_MAE := 0.95; Overfitting := (-0.0047) |});
   ("ElasticNet"%string,
    {| Train_R2 := 0.7661; Test_R2 := 0.7694; Test_RMSE := 0.8626;
       Test_MAE := 0.67; Overfitting := (-0.0033) |})].

(** Eighteen feature names, for a coefficient vector of eighteen zeros. *)
Definition letters : list string :=
  ["a"; "b"; "c"; "d"; "e"; "f"; "g"; "h"; "i"; "j"; "k"; "l"; "m"; "n"; "o";
   "p"; "q"; "r"]%string.

(** Twenty-one features whose coefficients hold ties in magnitude, zeros
    and two NaN. *)
Definition mixed_features : list string :=
  letters ++ ["s"; "t"; "u"]%string.

Definition mixed_coefficients : vec :=
  [0.5; -0.5; nan; 0; 0.25; -2; 1; 1; -1; 0.125; 3; nan; -0.75; 0.75; 0; 2; -3;
   0.0625; 1; -0.25; 0.5]%float.

(** The ten features of the table printed by the notebook's own run, with
    their ridge coefficients, in column order. *)
Definition printed_features : list string :=
  ["young_adults_pct"; "older_adults_pct"; "Civilian_labor_force_2018";
   "Employed_2018"; "PCTPOVALL_2018"; "PCTPOV017_2018"; "anycondition_prevalence";
   "COPD_prevalence"; "CKD_prevalence"; "diabetes_prevalence"]%string.

Definition printed_coefficients : vec :=
  [-0.165090; 0.213297; -0.161072; 0.190107; 0.174112; -0.199034; 0.256354;
   0.854022; 0.745077; -0.162272]%float.

End Toy.

(** ** Vocabulary of the properties *)

(** The largest length a Python sequence can have ([sys.maxsize]). *)
Definition PY_SSIZE_T_MAX : Z := 2 ^ 63 - 1.

(** The sign classes of [spec_float] used below. *)
Definition SFnonneg (s : spec_float) : bool :=
  match s with
  | S754_zero false | S754_infinity false | S754_finite false _ _ => true
  | _ => false
  end.

Definition SFis_zero (s : spec_float) : bool :=
  match s with
  | S754_zero _ => true
  | _ => false
  end.

Definition nonneg (x : float) : Prop := SFnonneg (Prim2SF x) = true.

(** [lo <= x <= hi] *)
Definition within (lo hi x : float) : bool := ((lo <=? x) && (x <=? hi))%float.

(** What [max] promises of the item [w] it returns, found between the
    items [before] and [after] it in iteration order: no item has a
    strictly greater key, and no earlier item has an equal one. *)
Definition first_maximal {A : Type} (f : A -> float) (before : list A) (w : A)
    (after : list A) : Prop :=
  (forall x, In x (before ++ after) -> (f w <? f x)%float = false) /\
  (forall x, In x before -> (f x =? f w)%float = false).

(** The key of the [max] call of cell 3 as a total function of the name. *)
Definition test_r2_of (results : Py.dict result) (k : string) : float :=
  match Py.dict_get results k with
  | Ok r => Test_R2 r
  | Raise _ => nan
  end.

(** The keys of a dict after [d[k] = v]. *)
Definition add_key (ks : list string) (k : string) : list string :=
  if existsb (String.eqb k) ks then ks else ks ++ [k].

(** What one pass of the loop body over [(name, model)], started in [nb],
    has left in the three dicts of [nb']. *)
Definition recorded {estimator : Type}
    (fit : estimator -> frame -> vec -> res estimator)
    (predict : estimator -> frame -> res vec)
    (nb nb' : notebook estimator) (name : string) (model : estimator) : Prop :=
  exists model' y_train_pred y_test_pred train_metrics test_metrics,
    fit model (X_train nb) (y_train nb) = Ok model' /\
    predict model' (X_train nb) = Ok y_train_pred /\
    predict model' (X_test nb) = Ok y_test_pred /\
    calculate_metrics (y_train nb) y_train_pred = Ok train_metrics /\
    calculate_metrics (y_test nb) y_test_pred = Ok test_metrics /\
    Py.dict_get (models nb') name = Ok model' /\
    Py.dict_get (predictions nb') name = Ok y_test_pred /\
    Py.dict_get (results nb') name =
      Ok {| Train_R2 := R2 train_metrics;
            Test_R2 := R2 test_metrics;
            Test_RMSE := RMSE test_metrics;
            Test_MAE := MAE test_metrics;
            Overfitting := (R2 train_metrics - R2 test_metrics)%float |}.

(** The part of the session the loop never assigns. *)
Definition same_frame {estimator : Type} (nb nb' : notebook estimator) : Prop :=
  X_train nb' = X_train nb /\ X_test nb' = X_test nb /\
  y_train nb' = y_train nb /\ y_test nb' = y_test nb /\
  best nb' = best nb /\ stdout nb' = stdout nb /\ disk nb' = disk nb.

(** A prediction that equals the target row by row, on finite targets. *)
Definition perfect (y_true y_pred : vec) : Prop :=
  Forall2 (fun t p => is_finite t = true /\ (p =? t)%float = true) y_true y_pred.

(** The Series whose mean the MAPE line takes. *)
Definition absolute_percentage_errors (y_true y_pred : vec) : vec :=
  map PrimFloat.abs
    (zip_with PrimFloat.div (zip_with PrimFloat.sub y_true y_pred) y_true).

(** What [nargsort] relies on of the sort kernel at one call: the result
    lists every position once, and no entry is below an earlier one in the
    order of the kernel. *)
Definition sorts (argsort : vec -> list nat) (v : vec) : Prop :=
  Permutation (argsort v) (seq 0 (length v)) /\
  StronglySorted (fun a b => np.less b a = false)
    (map (fun i => nth i v nan) (argsort v)).

(** [b] may come after [a] in a descending order that puts NaN last: [b]
    is NaN, or [b <= a] (and then neither is NaN). *)
Definition descending (a b : float) : Prop :=
  is_nan b = true \/ (b <=? a)%float = true.

(** *** The states of the sort kernel *)

(** [t'] holds the entries of [t], moved only inside the range [pl..pr]. *)
Definition rearranged (t t' : list nat) (pl pr : nat) : Prop :=
  Permutation t' t /\
  (forall k, k < pl \/ pr < k -> np.get t' k = np.get t k) /\
  (forall k, pl <= k <= pr -> exists k', pl <= k' <= pr /\ np.get t' k = np.get t k').

(** The keys at the positions [pl..pr] of [t] are in order. *)
Definition sorted_on (v : vec) (t : list nat) (pl pr : nat) : Prop :=
  forall i j, pl <= i -> i < j -> j <= pr -> np.less (np.key v t j) (np.key v t i) = false.

(** In the one-based array [a] of [aheapsort], node [k] is not below its
    children among the first [n] entries. *)
Definition heap_ok (v : vec) (a : list nat) (n k : nat) : Prop :=
  (2 * k <= n -> np.less (np.key v a (k - 1)) (np.key v a (2 * k - 1)) = false) /\
  (2 * k + 1 <= n -> np.less (np.key v a (k - 1)) (np.key v a (2 * k)) = false).

(** The ranges of [tosort] that [aquicksort] has still to sort, the
    current one and those on its stack: they lie in the array and apart
    from each other. *)
Fixpoint ranges_ok (n : nat) (rs : list (nat * nat)) : Prop :=
  match rs with
  | [] => True
  | (a, b) :: rs' =>
      a <= b /\ b < n /\ (forall a' b', In (a', b') rs' -> b < a' \/ b' < a) /\
      ranges_ok n rs'
  end.

(** Two positions that no pending range holds together are in order. *)
Definition sorted_apart (v : vec) (t : list nat) (rs : list (nat * nat)) : Prop :=
  forall i j, i < j -> j < length t ->
    (forall a b, In (a, b) rs -> ~ (a <= i /\ j <= b)) ->
    np.less (np.key v t j) (np.key v t i) = false.

(** The passes of the outer loop that the pending ranges can still take. *)
Fixpoint budget (rs : list (nat * nat)) : nat :=
  match rs with
  | [] => 0
  | (a, b) :: rs' => 2 * (b - a) + 1 + budget rs'
  end.

(** *** The frame of a library call *)

(** The call leaves the data, the winner, the console and the disk of the
    session as it found them. *)
Definition keeps_frame {estimator A : Type}
    (call : notebook estimator -> res (A * notebook estimator)) : Prop :=
  forall nb a nb', call nb = Ok (a, nb') -> same_frame nb nb'.

(** The quotients of the MAPE line that [Series.mean] does not skip. *)
Definition kept_errors (y_true y_pred : vec) : vec :=
  filter (fun x => negb (is_nan x)) (absolute_percentage_errors y_true y_pred).

(** The ranking a stable descending sort by absolute coefficient gives:
    rows of equal magnitude stay in their original order. *)
Fixpoint insert_stable (r : importance) (sorted : list importance) : list importance :=
  match sorted with
  | [] => [r]
  | s :: rest =>
      if (Abs_Coefficient s <? Abs_Coefficient r)%float then r :: s :: rest
      else s :: insert_stable r rest
  end.

Definition stable_descending (df : list importance) : list importance :=
  fold_left (fun sorted r => insert_stable r sorted) df [].

(** * Facts *)

Ltac bind_inv H :=
  match type of H with
  | bind ?m _ = Ok _ =>
      let E := fresh "E" in
      destruct m eqn:E; simpl in H; [|discriminate]
  end.

(** ** IEEE binary64: order, classes and the exact cases of the arithmetic

    Derived from the specification of the primitive operations over
    [spec_float]. *)

Module IEEE.

Local Open Scope float_scope.

Lemma Pos_compare_cont_spec (p q : positive) :
  CompareSpec (p = q) (p < q)%positive (q < p)%positive (Pos.compare_cont Eq p q).
Proof. exact (Pos.compare_spec p q). Qed.

Ltac sf_cases :=
  repeat match goal with
  | s : bool |- _ => destruct s
  | |- context [Z.compare ?a ?b] => destruct (Z.compare_spec a b)
  | H : context [Z.compare ?a ?b] |- _ => destruct (Z.compare_spec a b)
  | |- context [Pos.compare_cont Eq ?a ?b] => destruct (Pos_compare_cont_spec a b)
  | H : context [Pos.compare_cont Eq ?a ?b] |- _ => destruct (Pos_compare_cont_spec a b)
  end;
  simpl in *; try congruence; try lia.

Lemma SFleb_trans (x y z : spec_float) :
  SFleb x y = true -> SFleb y z = true -> SFleb x z = true.
Proof.
  unfold SFleb, SFcompare.
  destruct x as [sx|sx| |sx mx ex], y as [sy|sy| |sy my ey], z as [sz|sz| |sz mz ez];
    intros H1 H2; try discriminate; try reflexivity;
    sf_cases.
Qed.

Lemma SFleb_total (x y : spec_float) :
  x <> S754_nan -> y <> S754_nan -> SFleb x y = true \/ SFleb y x = true.
Proof.
  unfold SFleb, SFcompare.
  destruct x as [sx|sx| |sx mx ex], y as [sy|sy| |sy my ey];
    intros H1 H2; try congruence; auto;
    sf_cases; auto.
Qed.

Lemma SFltb_negb_leb (x y : spec_float) :
  x <> S754_nan -> y <> S754_nan -> SFltb x y = negb (SFleb y x).
Proof.
  unfold SFleb, SFltb, SFcompare.
  destruct x as [sx|sx| |sx mx ex], y as [sy|sy| |sy my ey];
    intros H1 H2; try congruence; auto;
    sf_cases; auto.
Qed.

Lemma SFeqb_leb (x y : spec_float) :
  SFeqb x y = SFleb x y && SFleb y x.
Proof.
  unfold SFleb, SFeqb, SFcompare.
  destruct x as [sx|sx| |sx mx ex], y as [sy|sy| |sy my ey];
    try congruence; auto;
    sf_cases; auto.
Qed.

Lemma SFleb_nan_r (x : spec_float) : SFleb x S754_nan = false.
Proof. destruct x; reflexivity. Qed.

Lemma SFeqb_refl (s : spec_float) :
  SFeqb s s = negb (match s with S754_nan => true | _ => false end).
Proof.
  unfold SFeqb, SFcompare. destruct s as [b|b| |b m e]; try reflexivity; sf_cases.
Qed.

Lemma is_nan_spec (x : float) : is_nan x = true <-> Prim2SF x = S754_nan.
Proof.
  unfold is_nan. rewrite eqb_spec, SFeqb_refl, negb_involutive.
  destruct (Prim2SF x); split; congruence.
Qed.

Lemma is_nan_false (x : float) : is_nan x = false <-> Prim2SF x <> S754_nan.
Proof.
  rewrite <- is_nan_spec. destruct (is_nan x); split; congruence.
Qed.

Lemma leb_trans (x y z : float) : (x <=? y) = true -> (y <=? z) = true -> (x <=? z) = true.
Proof. rewrite !leb_spec. apply SFleb_trans. Qed.

Lemma leb_total (x y : float) :
  is_nan x = false -> is_nan y = false -> (x <=? y) = true \/ (y <=? x) = true.
Proof. rewrite !is_nan_false, !leb_spec. apply SFleb_total. Qed.

Lemma ltb_negb_leb (x y : float) :
  is_nan x = false -> is_nan y = false -> (x <? y) = negb (y <=? x).
Proof. rewrite !is_nan_false, ltb_spec, leb_spec. apply SFltb_negb_leb. Qed.

Lemma eqb_leb (x y : float) : (x =? y) = (x <=? y) && (y <=? x).
Proof. rewrite eqb_spec, !leb_spec. apply SFeqb_leb. Qed.

Lemma leb_not_nan (x y : float) : (x <=? y) = true -> is_nan x = false /\ is_nan y = false.
Proof.
  rewrite leb_spec, !is_nan_false. intros H; split; intros E; rewrite E in H.
  - discriminate.
  - rewrite SFleb_nan_r in H. discriminate.
Qed.

Lemma ltb_not_nan (x y : float) : (x <? y) = true -> is_nan x = false /\ is_nan y = false.
Proof.
  rewrite ltb_spec, !is_nan_false. unfold SFltb, SFcompare.
  destruct (Prim2SF x), (Prim2SF y); intros H; try discriminate; split; congruence.
Qed.

Lemma ltb_leb (x y : float) : (x <? y) = true -> (x <=? y) = true.
Proof.
  rewrite ltb_spec, leb_spec. unfold SFltb, SFleb.
  destruct (SFcompare (Prim2SF x) (Prim2SF y)) as [[]|]; congruence.
Qed.

Lemma ltb_nan_l (x y : float) : is_nan x = true -> (x <? y) = false.
Proof.
  intros H. destruct (x <? y) eqn:E; [|reflexivity].
  apply ltb_not_nan in E. destruct E; congruence.
Qed.

Lemma ltb_nan_r (x y : float) : is_nan y = true -> (x <? y) = false.
Proof.
  intros H. destruct (x <? y) eqn:E; [|reflexivity].
  apply ltb_not_nan in E. destruct E; congruence.
Qed.

Lemma eqb_nan_l (x y : float) : is_nan x = true -> (x =? y) = false.
Proof.
  intros H. rewrite eqb_leb. destruct (x <=? y) eqn:E; [|reflexivity].
  apply leb_not_nan in E. destruct E; congruence.
Qed.

Lemma eqb_nan_r (x y : float) : is_nan y = true -> (x =? y) = false.
Proof.
  intros H. rewrite eqb_leb. destruct (x <=? y) eqn:E; [|reflexivity].
  apply leb_not_nan in E. destruct E; congruence.
Qed.

Lemma Prim2SF_zero : Prim2SF 0 = S754_zero false.
Proof. reflexivity. Qed.

Lemma Prim2SF_infinity : Prim2SF infinity = S754_infinity false.
Proof. reflexivity. Qed.

Lemma is_infinity_spec (x : float) :
  is_infinity x = true <-> exists s, Prim2SF x = S754_infinity s.
Proof.
  unfold is_infinity. rewrite eqb_spec, abs_spec, Prim2SF_infinity.
  destruct (Prim2SF x) as [s|s| |s m e]; simpl; split; intros H;
    try discriminate; try (destruct H; discriminate); eauto.
Qed.

Lemma is_finite_spec (x : float) :
  is_finite x = true ->
  (exists s, Prim2SF x = S754_zero s) \/ (exists s m e, Prim2SF x = S754_finite s m e).
Proof.
  unfold is_finite. intros H. apply negb_true_iff, orb_false_iff in H. destruct H as [Hn Hi].
  apply is_nan_false in Hn.
  destruct (Prim2SF x) as [s|s| |s m e] eqn:E; eauto.
  - assert (is_infinity x = true) by (apply is_infinity_spec; eauto). congruence.
  - congruence.
Qed.

Lemma iter_pos_shr_1_nonneg (p : positive) (r : shr_record) :
  (0 <= shr_m r)%Z -> (0 <= shr_m (iter_pos shr_1 p r))%Z.
Proof.
  revert r. induction p as [p IH|p IH|]; intros r H; simpl.
  - apply IH, IH. destruct r as [m b c]; destruct m as [|[q|q|]|q]; simpl in *; lia.
  - apply IH, IH, H.
  - destruct r as [m b c]; destruct m as [|[q|q|]|q]; simpl in *; lia.
Qed.

Lemma shr_fexp_nonneg (m e : Z) (l : location) :
  (0 <= m)%Z -> (0 <= shr_m (fst (shr_fexp prec emax m e l)))%Z.
Proof.
  intros H. unfold shr_fexp, shr.
  assert (H0 : (0 <= shr_m (shr_record_of_loc m l))%Z)
    by (destruct l as [|[]]; exact H).
  destruct (fexp prec emax (Zdigits2 m + e) - e)%Z; simpl; auto.
  apply iter_pos_shr_1_nonneg, H0.
Qed.

Lemma round_nearest_even_nonneg (m : Z) (l : location) :
  (0 <= m)%Z -> (0 <= round_nearest_even m l)%Z.
Proof.
  intros H. destruct l as [|[]]; simpl; try lia. destruct (Z.even m); lia.
Qed.

Lemma binary_round_aux_nonneg (m e : Z) (l : location) :
  (0 <= m)%Z -> SFnonneg (binary_round_aux prec emax false m e l) = true.
Proof.
  intros H. unfold binary_round_aux.
  pose proof (shr_fexp_nonneg m e l H) as H1.
  destruct (shr_fexp prec emax m e l) as [mrs' e'] eqn:E1. simpl in H1.
  pose proof (shr_fexp_nonneg _ e' loc_Exact
                (round_nearest_even_nonneg _ (loc_of_shr_record mrs') H1)) as H2.
  destruct (shr_fexp prec emax (round_nearest_even (shr_m mrs') (loc_of_shr_record mrs')) e' loc_Exact)
    as [mrs'' e''] eqn:E2. simpl in H2.
  destruct (shr_m mrs'') as [|q|q]; try reflexivity.
  - destruct (Z.leb e'' (emax - prec)); reflexivity.
  - lia.
Qed.

Lemma SFadd_nonneg (x y : spec_float) :
  SFnonneg x = true -> SFnonneg y = true -> SFnonneg (SF64add x y) = true.
Proof.
  destruct x as [[]|[]| |[] mx ex], y as [[]|[]| |[] my ey]; try discriminate;
    intros _ _; try reflexivity.
  unfold SF64add, SFadd, cond_Zopp, binary_normalize.
  set (a := fst (shl_align mx ex (Z.min ex ey))).
  set (b := fst (shl_align my ey (Z.min ex ey))).
  change (Z.pos a + Z.pos b)%Z with (Z.pos (a + b)).
  unfold binary_round.
  destruct (shl_align (a + b) _ _) as [mz ez].
  apply binary_round_aux_nonneg. lia.
Qed.

Lemma SFadd_infinity_r (x : spec_float) :
  SFnonneg x = true -> SF64add x (S754_infinity false) = S754_infinity false.
Proof. destruct x as [[]|[]| |[] mx ex]; try discriminate; reflexivity. Qed.

Lemma SFadd_infinity_l (x : spec_float) :
  SFnonneg x = true -> SF64add (S754_infinity false) x = S754_infinity false.
Proof. destruct x as [[]|[]| |[] mx ex]; try discriminate; reflexivity. Qed.

Lemma fexp_unfold (x : Z) : fexp prec emax x = Z.max (x - 53) (-1074).
Proof. reflexivity. Qed.

Lemma digits2_pos_lower (p : positive) : (2 ^ (Z.pos (digits2_pos p) - 1) <= Z.pos p)%Z.
Proof.
  induction p as [p IH|p IH|]; simpl digits2_pos.
  - rewrite Pos2Z.inj_succ. replace (Z.succ (Z.pos (digits2_pos p)) - 1)%Z
      with (Z.succ (Z.pos (digits2_pos p) - 1)) by lia.
    rewrite Z.pow_succ_r by lia. lia.
  - rewrite Pos2Z.inj_succ. replace (Z.succ (Z.pos (digits2_pos p)) - 1)%Z
      with (Z.succ (Z.pos (digits2_pos p) - 1)) by lia.
    rewrite Z.pow_succ_r by lia. lia.
  - simpl. lia.
Qed.

Lemma digits2_pos_bound (p : positive) (k : Z) :
  (0 <= k)%Z -> (Z.pos p < 2 ^ k)%Z -> (Z.pos (digits2_pos p) <= k)%Z.
Proof.
  intros Hk Hp. pose proof (digits2_pos_lower p) as H.
  destruct (Z_le_gt_dec (Z.pos (digits2_pos p)) k) as [|Hgt]; [assumption|].
  assert (2 ^ k <= 2 ^ (Z.pos (digits2_pos p) - 1))%Z by (apply Z.pow_le_mono_r; lia).
  lia.
Qed.

Lemma digits2_pos_iter_xO (p k : positive) :
  digits2_pos (Pos.iter xO p k) = (digits2_pos p + k)%positive.
Proof.
  induction k as [|k IH] using Pos.peano_ind.
  - simpl. lia.
  - rewrite Pos.iter_succ. simpl. rewrite IH. lia.
Qed.

Lemma digits2_pos_upper (p : positive) : (Z.pos p < 2 ^ Z.pos (digits2_pos p))%Z.
Proof.
  induction p as [p IH|p IH|]; simpl digits2_pos.
  - rewrite Pos2Z.inj_succ, Z.pow_succ_r by lia. lia.
  - rewrite Pos2Z.inj_succ, Z.pow_succ_r by lia. lia.
  - simpl. lia.
Qed.

Lemma shr_1_m (r : shr_record) :
  (0 <= shr_m r)%Z -> shr_m (shr_1 r) = (shr_m r / 2)%Z.
Proof.
  destruct r as [m b c]. simpl. intros H.
  destruct m as [|[q|q|]|q]; try lia; cbn [shr_m].
  - reflexivity.
  - apply Z.div_unique with 1%Z; lia.
  - apply Z.div_unique with 0%Z; lia.
  - reflexivity.
Qed.

Lemma shr_1_nonneg (r : shr_record) : (0 <= shr_m r)%Z -> (0 <= shr_m (shr_1 r))%Z.
Proof. intros H. rewrite shr_1_m by exact H. apply Z.div_pos; lia. Qed.

Lemma iter_pos_shr_1_m (k : positive) :
  forall r, (0 <= shr_m r)%Z -> shr_m (iter_pos shr_1 k r) = (shr_m r / 2 ^ Z.pos k)%Z.
Proof.
  induction k as [k IH|k IH|]; intros r H; simpl iter_pos.
  - rewrite IH by (apply iter_pos_shr_1_nonneg, shr_1_nonneg, H).
    rewrite IH by (apply shr_1_nonneg, H). rewrite shr_1_m by exact H.
    assert (0 < 2 ^ Z.pos k)%Z by (apply Z.pow_pos_nonneg; lia).
    rewrite !Z.div_div by lia. f_equal.
    replace (Z.pos k~1) with (1 + Z.pos k + Z.pos k)%Z by lia.
    rewrite !Z.pow_add_r by lia. change (2 ^ 1)%Z with 2%Z. lia.
  - rewrite IH by (apply iter_pos_shr_1_nonneg, H). rewrite IH by exact H.
    assert (0 < 2 ^ Z.pos k)%Z by (apply Z.pow_pos_nonneg; lia).
    rewrite Z.div_div by lia. f_equal.
    replace (Z.pos k~0) with (Z.pos k + Z.pos k)%Z by lia.
    rewrite Z.pow_add_r by lia. reflexivity.
  - rewrite shr_1_m by exact H. reflexivity.
Qed.

(** Outside the subnormal range a right shift leaves a positive mantissa. *)
Lemma shr_fexp_pos (m : positive) (e : Z) (l : location) :
  (-1021 <= Z.pos (digits2_pos m) + e)%Z ->
  let '(r, e') := shr_fexp prec emax (Z.pos m) e l in
  (0 < shr_m r <= Z.pos m)%Z /\
  e' = (e + Z.max 0 (Z.pos (digits2_pos m) - 53))%Z.
Proof.
  intros Hn. unfold shr_fexp. change (Zdigits2 (Z.pos m)) with (Z.pos (digits2_pos m)).
  rewrite fexp_unfold, Z.max_l by lia.
  assert (H0 : shr_m (shr_record_of_loc (Z.pos m) l) = Z.pos m)
    by (destruct l as [|[]]; reflexivity).
  unfold shr.
  destruct (Z.pos (digits2_pos m) + e - 53 - e)%Z as [|k|k] eqn:E.
  - rewrite H0. split; lia.
  - rewrite iter_pos_shr_1_m by (rewrite H0; lia). rewrite H0. split; [|lia].
    pose proof (digits2_pos_lower m) as Hlow.
    assert (2 ^ Z.pos k <= 2 ^ (Z.pos (digits2_pos m) - 1))%Z
      by (apply Z.pow_le_mono_r; lia).
    assert (0 < 2 ^ Z.pos k)%Z by (apply Z.pow_pos_nonneg; lia).
    split.
    + apply Z.div_str_pos. lia.
    + apply Z.div_le_upper_bound; [lia|]. nia.
  - rewrite H0. split; lia.
Qed.

Lemma round_nearest_even_bounds (m : Z) (l : location) :
  (0 < m)%Z -> (m <= round_nearest_even m l <= m + 1)%Z.
Proof.
  intros H. destruct l as [|[]]; simpl; try lia. destruct (Z.even m); lia.
Qed.

Lemma binary_round_aux_finite (m : positive) (e : Z) :
  (-52 <= e <= 0)%Z -> (Z.pos m < 2 ^ 63)%Z ->
  exists m' e', binary_round_aux prec emax false (Z.pos m) e loc_Exact
                = S754_finite false m' e'.
Proof.
  intros He Hm. unfold binary_round_aux.
  pose proof (shr_fexp_pos m e loc_Exact ltac:(lia)) as H1.
  destruct (shr_fexp prec emax (Z.pos m) e loc_Exact) as [r1 e1].
  destruct H1 as [Hm1 He1].
  pose proof (round_nearest_even_bounds (shr_m r1) (loc_of_shr_record r1) ltac:(lia)) as Hr.
  destruct (round_nearest_even (shr_m r1) (loc_of_shr_record r1)) as [|m2|m2] eqn:E2; try lia.
  pose proof (digits2_pos_bound m 63 ltac:(lia) Hm) as Hd.
  assert (Hd2 : (Z.pos (digits2_pos m2) <= 64)%Z).
  { apply digits2_pos_bound; [lia|].
    change (2 ^ 64)%Z with 18446744073709551616%Z.
    change (2 ^ 63)%Z with 9223372036854775808%Z in Hm.
    destruct Hm1 as [_ Hm1]. destruct Hr as [_ Hr].
    apply Z.le_lt_trans with (shr_m r1 + 1)%Z; [exact Hr|].
    apply Z.le_lt_trans with (Z.pos m + 1)%Z; [apply Z.add_le_mono_r; exact Hm1|].
    apply Z.lt_trans with (9223372036854775808 + 1)%Z; [apply Z.add_lt_mono_r; exact Hm|].
    reflexivity. }
  pose proof (shr_fexp_pos m2 e1 loc_Exact ltac:(lia)) as H2.
  destruct (shr_fexp prec emax (Z.pos m2) e1 loc_Exact) as [r2 e2].
  destruct H2 as [Hm3 He3].
  destruct (shr_m r2) as [|m3|m3]; try lia.
  replace (e2 <=? emax - prec)%Z with true; [eauto|].
  symmetry. apply Z.leb_le. change (emax - prec)%Z with 971%Z. lia.
Qed.

Lemma binary_round_count (p : positive) :
  (Z.pos p < 2 ^ 63)%Z ->
  exists m e, binary_round prec emax false p 0 = S754_finite false m e.
Proof.
  intros Hp. pose proof (digits2_pos_bound p 63 ltac:(lia) Hp) as Hd.
  unfold binary_round. rewrite fexp_unfold. unfold shl_align.
  rewrite Z.add_0_r, Z.max_l by lia. rewrite Z.sub_0_r.
  destruct (Z.pos (digits2_pos p) - 53)%Z as [|q|q] eqn:E.
  - apply binary_round_aux_finite; lia.
  - apply binary_round_aux_finite; lia.
  - apply binary_round_aux_finite.
    + lia.
    + pose proof (digits2_pos_upper (Pos.iter xO p q)) as Hu.
      rewrite digits2_pos_iter_xO in Hu.
      eapply Z.lt_le_trans; [exact Hu|]. apply Z.pow_le_mono_r; lia.
Qed.

Lemma float_of_nat_finite (n : nat) :
  1 <= n -> (Z.of_nat n < 2 ^ 63)%Z ->
  exists m e, Prim2SF (float_of_nat n) = S754_finite false m e.
Proof.
  intros H1 H2. unfold float_of_nat. rewrite of_uint63_spec.
  rewrite Uint63.of_Z_spec. rewrite Z.mod_small by (split; [lia|exact H2]).
  destruct (Z.of_nat n) as [|p|p] eqn:E; try lia.
  apply binary_round_count. exact H2.
Qed.

Lemma SFsub_of_equal (x y : spec_float) :
  SFeqb x y = true ->
  (exists b, y = S754_zero b) \/ (exists b m e, y = S754_finite b m e) ->
  ((exists b, x = S754_zero b) \/ (exists b m e, x = S754_finite b m e)) /\
  SFis_zero (SF64sub x y) = true /\ SFis_zero (SF64sub y x) = true.
Proof.
  intros Heq [[b ->]|(b & m & e & ->)]; unfold SFeqb, SFcompare in Heq.
  - destruct x as [bx|[]| |[] mx ex]; try discriminate.
    split; [eauto|]. destruct bx, b; split; reflexivity.
  - destruct x as [bx|[]| |bx mx ex]; try (destruct b; discriminate).
    assert (bx = b /\ ex = e /\ mx = m) as (-> & -> & ->).
    { destruct bx, b; try discriminate;
        destruct (Z.compare_spec ex e); try discriminate;
        destruct (Pos_compare_cont_spec mx m); try discriminate; auto. }
    split; [right; eauto|].
    unfold SF64sub, SFsub. rewrite Z.sub_diag. split; reflexivity.
Qed.

Lemma is_finite_spec_inv (x : float) :
  (exists s, Prim2SF x = S754_zero s) \/ (exists s m e, Prim2SF x = S754_finite s m e) ->
  is_finite x = true.
Proof.
  intros H. unfold is_finite. apply negb_true_iff, orb_false_iff. split.
  - apply is_nan_false. destruct H as [[s ->]|(s & m & e & ->)]; discriminate.
  - destruct (is_infinity x) eqn:E; [|reflexivity].
    apply is_infinity_spec in E. destruct E as [b E].
    destruct H as [[s H]|(s & m & e & H)]; congruence.
Qed.

(** Equal finite doubles differ by a zero, of either sign. *)
Lemma sub_of_equal (t p : float) :
  is_finite t = true -> (p =? t) = true ->
  is_finite p = true /\
  SFis_zero (Prim2SF (t - p)) = true /\ SFis_zero (Prim2SF (p - t)) = true.
Proof.
  intros Hf Heq. rewrite eqb_spec in Heq.
  destruct (SFsub_of_equal _ _ Heq (is_finite_spec t Hf)) as (Hp & H1 & H2).
  rewrite !sub_spec. split; [apply is_finite_spec_inv, Hp|]. split; assumption.
Qed.

Lemma square_of_zero (z : float) : SFis_zero (Prim2SF z) = true -> (z * z = 0)%float.
Proof.
  intros H. apply Prim2SF_inj. rewrite mul_spec.
  destruct (Prim2SF z) as [[]| | |]; try discriminate; reflexivity.
Qed.

Lemma abs_of_zero (z : float) : SFis_zero (Prim2SF z) = true -> abs z = 0.
Proof.
  intros H. apply Prim2SF_inj. rewrite abs_spec.
  destruct (Prim2SF z) as [[]| | |]; try discriminate; reflexivity.
Qed.

Lemma zero_div_count (n : nat) :
  (1 <= n)%nat -> (Z.of_nat n < 2 ^ 63)%Z -> (0 / float_of_nat n = 0)%float.
Proof.
  intros H1 H2. apply Prim2SF_inj. rewrite div_spec.
  destruct (float_of_nat_finite n H1 H2) as (m & e & ->). reflexivity.
Qed.

Lemma infinity_div_count (n : nat) :
  (1 <= n)%nat -> (Z.of_nat n < 2 ^ 63)%Z -> (infinity / float_of_nat n = infinity)%float.
Proof.
  intros H1 H2. apply Prim2SF_inj. rewrite div_spec.
  destruct (float_of_nat_finite n H1 H2) as (m & e & ->). reflexivity.
Qed.

Lemma add_nonneg (x y : float) : nonneg x -> nonneg y -> nonneg (x + y).
Proof. unfold nonneg. rewrite add_spec. apply SFadd_nonneg. Qed.

Lemma add_infinity_r (x : float) : nonneg x -> x + infinity = infinity.
Proof.
  intros H. apply Prim2SF_inj. rewrite add_spec. apply SFadd_infinity_r, H.
Qed.

Lemma add_infinity_l (x : float) : nonneg x -> infinity + x = infinity.
Proof.
  intros H. apply Prim2SF_inj. rewrite add_spec. apply SFadd_infinity_l, H.
Qed.

(** [abs] of anything, with NaN replaced by zero, is a non-negative double. *)
Lemma filled_abs_nonneg (z : float) :
  nonneg (if is_nan (abs z) then 0 else abs z).
Proof.
  destruct (is_nan (abs z)) eqn:E; [reflexivity|].
  apply is_nan_false in E. unfold nonneg. rewrite abs_spec in *.
  destruct (Prim2SF z); simpl in *; try reflexivity. congruence.
Qed.

Lemma eqb_zero_spec (t : float) : (t =? 0) = true -> exists b, Prim2SF t = S754_zero b.
Proof.
  rewrite eqb_spec. change (Prim2SF 0) with (S754_zero false).
  unfold SFeqb, SFcompare. destruct (Prim2SF t) as [b|[]| |[] m e]; try discriminate. eauto.
Qed.

Lemma finite_nonzero_spec (p : float) :
  is_finite p = true -> (p =? 0) = false -> exists b m e, Prim2SF p = S754_finite b m e.
Proof.
  intros Hf Hz. destruct (is_finite_spec p Hf) as [[b H]|H]; [|exact H].
  rewrite eqb_spec, H in Hz. discriminate.
Qed.

(** The quotient of the MAPE line at a row whose target is zero and whose
    prediction is not. *)
Lemma abs_quotient_by_zero (t p : float) :
  (t =? 0) = true -> is_finite p = true -> (p =? 0) = false ->
  abs ((t - p) / t) = infinity.
Proof.
  intros Ht Hf Hp. apply Prim2SF_inj. rewrite abs_spec, div_spec, sub_spec.
  destruct (eqb_zero_spec t Ht) as [b ->].
  destruct (finite_nonzero_spec p Hf Hp) as (bp & m & e & ->).
  reflexivity.
Qed.

Lemma infinity_times_100 : (infinity * 100 = infinity)%float.
Proof. reflexivity. Qed.

(** Once [m < x], nothing that [m] was not below can be above or equal to [x]. *)
Lemma ltb_step (m x y : float) :
  (m <? x) = true -> (m <? y) = false -> (x <? y) = false /\ (y =? x) = false.
Proof.
  intros Hmx Hmy. destruct (is_nan y) eqn:Hy.
  - split; [apply ltb_nan_r | apply eqb_nan_l]; exact Hy.
  - destruct (ltb_not_nan _ _ Hmx) as [Hm Hx].
    rewrite ltb_negb_leb in Hmy by assumption.
    apply negb_false_iff in Hmy.
    pose proof (leb_trans _ _ _ Hmy (ltb_leb _ _ Hmx)) as Hyx.
    split.
    + rewrite ltb_negb_leb by assumption. rewrite Hyx. reflexivity.
    + rewrite eqb_leb, Hyx. simpl.
      destruct (x <=? y) eqn:Hxy; [|reflexivity].
      pose proof (leb_trans _ _ _ Hxy Hmy) as Hxm.
      rewrite ltb_negb_leb in Hmx by assumption.
      rewrite Hxm in Hmx. discriminate.
Qed.

Lemma ltb_asym (x y : float) : (x <? y) = true -> (y <? x) = false /\ (x =? y) = false.
Proof.
  intros H. destruct (ltb_not_nan _ _ H) as [Hx Hy].
  pose proof (ltb_leb _ _ H) as Hle.
  rewrite ltb_negb_leb in H by assumption. apply negb_true_iff in H.
  split.
  - rewrite ltb_negb_leb by assumption. rewrite Hle. reflexivity.
  - rewrite eqb_leb, H. apply andb_false_r.
Qed.

(** Without NaN, "not above and not equal" is "strictly below". *)
Lemma not_above_not_equal (x w : float) :
  is_nan x = false -> is_nan w = false ->
  (w <? x) = false -> (x =? w) = false -> (x <? w) = true.
Proof.
  intros Hx Hw H1 H2.
  rewrite ltb_negb_leb in H1 by assumption. apply negb_false_iff in H1.
  rewrite eqb_leb, H1 in H2. simpl in H2.
  rewrite ltb_negb_leb by assumption. rewrite H2. reflexivity.
Qed.

Lemma not_above (x w : float) :
  is_nan x = false -> is_nan w = false -> (w <? x) = false -> (x <=? w) = true.
Proof.
  intros Hx Hw H1.
  rewrite ltb_negb_leb in H1 by assumption. apply negb_false_iff in H1. exact H1.
Qed.

Lemma within_apart (lo1 hi1 lo2 hi2 x y : float) :
  within lo1 hi1 x = true -> within lo2 hi2 y = true -> (hi1 <? lo2) = true ->
  (x <? y) = true /\ (y <? x) = false.
Proof.
  unfold within. intros Hx Hy Hlt.
  apply andb_true_iff in Hx. destruct Hx as [_ Hx].
  apply andb_true_iff in Hy. destruct Hy as [Hy _].
  pose proof (leb_trans _ _ _ (leb_trans _ _ _ Hx (ltb_leb _ _ Hlt)) Hy) as Hxy.
  destruct (leb_not_nan _ _ Hxy) as [Nx Ny].
  assert (H : (x <? y) = true).
  { rewrite ltb_negb_leb by assumption.
    destruct (y <=? x) eqn:Hyx; [|reflexivity].
    pose proof (leb_trans _ _ _ (leb_trans _ _ _ Hy Hyx) Hx) as Hbad.
    destruct (ltb_not_nan _ _ Hlt) as [N1 N2].
    rewrite ltb_negb_leb in Hlt by assumption. rewrite Hbad in Hlt. discriminate. }
  split; [exact H|]. apply (ltb_asym _ _ H).
Qed.

(** A double is above zero, below zero, or neither (a zero or NaN). *)
Lemma sign_cases (c : float) :
  match (0 <? c), (c <? 0), ((c =? 0) || is_nan c) with
  | true, false, false | false, true, false | false, false, true => True
  | _, _, _ => False
  end.
Proof.
  destruct (is_nan c) eqn:Hn.
  - rewrite (ltb_nan_r _ _ Hn), (ltb_nan_l _ _ Hn), orb_true_r. exact I.
  - assert (H0 : is_nan 0 = false) by reflexivity.
    rewrite (ltb_negb_leb 0 c H0 Hn), (ltb_negb_leb c 0 Hn H0), eqb_leb.
    destruct (leb_total c 0 Hn H0) as [H|H]; rewrite H;
      destruct (c <=? 0) eqn:E1, (0 <=? c) eqn:E2; simpl; try exact I; discriminate.
Qed.

(** The quotient of finite doubles is NaN at 0/0 only. *)

Lemma binary_round_aux_not_nan (s : bool) (m e : Z) (l : location) :
  (0 <= m)%Z -> binary_round_aux prec emax s m e l <> S754_nan.
Proof.
  intros H. unfold binary_round_aux.
  pose proof (shr_fexp_nonneg m e l H) as H1.
  destruct (shr_fexp prec emax m e l) as [mrs' e'] eqn:E1. simpl in H1.
  pose proof (shr_fexp_nonneg _ e' loc_Exact
                (round_nearest_even_nonneg _ (loc_of_shr_record mrs') H1)) as H2.
  destruct (shr_fexp prec emax (round_nearest_even (shr_m mrs') (loc_of_shr_record mrs')) e' loc_Exact)
    as [mrs'' e''] eqn:E2. simpl in H2.
  destruct (shr_m mrs'') as [|q|q]; try discriminate.
  - destruct (Z.leb e'' (emax - prec)); discriminate.
  - lia.
Qed.

Lemma binary_normalize_not_nan (m e : Z) (b : bool) :
  binary_normalize prec emax m e b <> S754_nan.
Proof.
  unfold binary_normalize, binary_round. destruct m as [|q|q]; try discriminate.
  - destruct (shl_align q e _) as [mz ez]. apply binary_round_aux_not_nan. lia.
  - destruct (shl_align q e _) as [mz ez]. apply binary_round_aux_not_nan. lia.
Qed.

Lemma SFdiv_finite_not_nan (x : spec_float) (s : bool) (m : positive) (e : Z) :
  x <> S754_nan -> SF64div x (S754_finite s m e) <> S754_nan.
Proof.
  intros Hx. unfold SF64div, SFdiv.
  destruct x as [sx|sx| |sx mx ex]; try discriminate; [congruence|].
  unfold SFdiv_core_binary.
  set (e' := Z.min _ _). set (m' := match (ex - e - e')%Z with Z0 => _ | _ => _ end).
  assert (Hm : (0 <= m')%Z).
  { unfold m'. destruct (ex - e - e')%Z; [lia| |lia]. apply Z.shiftl_nonneg. lia. }
  pose proof (Z.div_pos m' (Z.pos m) Hm ltac:(lia)) as Hq.
  unfold Z.div in Hq.
  destruct (Z.div_eucl m' (Z.pos m)) as [q r]. simpl in Hq.
  apply binary_round_aux_not_nan. exact Hq.
Qed.

Lemma SFsub_finite_not_nan (s : bool) (m : positive) (e : Z) (y : spec_float) :
  y <> S754_nan -> SF64sub (S754_finite s m e) y <> S754_nan.
Proof.
  intros Hy. unfold SF64sub, SFsub.
  destruct y as [sy|sy| |sy my ey]; try discriminate; [congruence|].
  apply binary_normalize_not_nan.
Qed.

(** The quotient of the MAPE line on finite doubles is NaN exactly at
    0/0. *)
Lemma quotient_is_nan (t p : float) :
  is_finite t = true -> is_finite p = true ->
  is_nan (abs ((t - p) / t)) = (t =? 0) && (p =? 0).
Proof.
  intros Ht Hp.
  assert (Hz : forall x, (x =? 0) = SFis_zero (Prim2SF x)).
  { intros x. rewrite eqb_spec. change (Prim2SF 0) with (S754_zero false).
    unfold SFeqb, SFcompare. destruct (Prim2SF x) as [b|[]| |[] m e]; reflexivity. }
  rewrite !Hz.
  assert (Habs : forall x, SFabs x = S754_nan -> x = S754_nan)
    by (intros [| | |]; simpl; congruence).
  destruct (is_nan (abs ((t - p) / t))) eqn:E.
  - apply is_nan_spec in E. rewrite abs_spec, div_spec, sub_spec in E. apply Habs in E.
    destruct (is_finite_spec t Ht) as [[bt Et]|(bt & mt & et & Et)];
      destruct (is_finite_spec p Hp) as [[bp Ep]|(bp & mp & ep & Ep)];
      rewrite Et, Ep in *; simpl; try reflexivity; exfalso.
    + destruct bt, bp; cbn in E; discriminate.
    + revert E. apply SFdiv_finite_not_nan, SFsub_finite_not_nan. discriminate.
    + revert E. apply SFdiv_finite_not_nan, SFsub_finite_not_nan. discriminate.
  - apply is_nan_false in E. rewrite abs_spec, div_spec, sub_spec in E.
    destruct (is_finite_spec t Ht) as [[bt Et]|(bt & mt & et & Et)];
      destruct (is_finite_spec p Hp) as [[bp Ep]|(bp & mp & ep & Ep)];
      rewrite Et, Ep in *; simpl; try reflexivity.
    exfalso. apply E. destruct bt, bp; reflexivity.
Qed.

Lemma add_zero_r (x : float) : nonneg x -> x + 0 = x.
Proof.
  unfold nonneg. intros H. apply Prim2SF_inj. rewrite add_spec.
  change (Prim2SF 0) with (S754_zero false).
  destruct (Prim2SF x) as [[]|[]| |[] m e]; try discriminate; reflexivity.
Qed.

End IEEE.

(** ** The Python builtins *)

Lemma dict_get_keys {V : Type} (d : Py.dict V) (k : string) :
  In k (Py.keys d) -> exists v, Py.dict_get d k = Ok v.
Proof.
  induction d as [|[k' v'] d IH]; simpl; [intros []|].
  intros H. destruct (String.eqb k k') eqn:E; [eauto|].
  destruct H as [H|H]; [|auto].
  subst k'. rewrite String.eqb_refl in E. discriminate.
Qed.

Lemma dict_get_set_same {V : Type} (d : Py.dict V) (k : string) (v : V) :
  Py.dict_get (Py.dict_set d k v) k = Ok v.
Proof.
  induction d as [|[k' v'] d IH]; simpl.
  - rewrite String.eqb_refl. reflexivity.
  - destruct (String.eqb k k') eqn:E; simpl; rewrite E; [reflexivity|exact IH].
Qed.

Lemma dict_get_set_other {V : Type} (d : Py.dict V) (k k' : string) (v : V) :
  k <> k' -> Py.dict_get (Py.dict_set d k v) k' = Py.dict_get d k'.
Proof.
  intros Hne. induction d as [|[k0 v0] d IH]; simpl.
  - destruct (String.eqb_spec k' k); [congruence|reflexivity].
  - destruct (String.eqb_spec k k0); simpl.
    + subst k0. destruct (String.eqb_spec k' k); [congruence|reflexivity].
    + destruct (String.eqb_spec k' k0); [reflexivity|exact IH].
Qed.

Lemma keys_dict_set {V : Type} (d : Py.dict V) (k : string) (v : V) :
  Py.keys (Py.dict_set d k v) = add_key (Py.keys d) k.
Proof.
  unfold add_key. induction d as [|[k' v'] d IH]; simpl; [reflexivity|].
  destruct (String.eqb k k'); simpl; [reflexivity|].
  rewrite IH. destruct (existsb (String.eqb k) (Py.keys d)); reflexivity.
Qed.

Section MaxFacts.

Variable A : Type.
Variable key : A -> res float.
Variable f : A -> float.

(** The loop invariant of [max]: with the items [seen ++ m :: rest] behind
    it and [m] held, [m] is first-maximal among them. *)
Lemma max_from_first_maximal (it : list A) :
  forall (seen : list A) (m : A) (rest : list A),
    (forall x, In x it -> key x = Ok (f x)) ->
    first_maximal f seen m rest ->
    exists before w after,
      seen ++ m :: rest ++ it = before ++ w :: after /\
      Py.max_from key m (f m) it = Ok w /\
      first_maximal f before w after.
Proof.
  induction it as [|x it IH]; intros seen m rest Hkey Hinv.
  - exists seen, m, rest. rewrite app_nil_r. auto.
  - simpl. rewrite (Hkey x (or_introl eq_refl)). simpl.
    assert (Hkey' : forall y, In y it -> key y = Ok (f y))
      by (intros y Hy; apply Hkey; right; exact Hy).
    destruct (f m <? f x)%float eqn:Hlt.
    + destruct (IH (seen ++ m :: rest) x [] Hkey') as (b & w & a & E & Hmax & Hfm).
      * destruct Hinv as [Hgt Heq]. split.
        -- intros y Hy. rewrite app_nil_r in Hy.
           apply in_app_or in Hy. destruct Hy as [Hy|[->|Hy]].
           ++ apply (IEEE.ltb_step _ _ _ Hlt). apply Hgt, in_or_app; auto.
           ++ apply (IEEE.ltb_asym _ _ Hlt).
           ++ apply (IEEE.ltb_step _ _ _ Hlt). apply Hgt, in_or_app; auto.
        -- intros y Hy. apply in_app_or in Hy. destruct Hy as [Hy|[->|Hy]].
           ++ apply (IEEE.ltb_step _ _ _ Hlt). apply Hgt, in_or_app; auto.
           ++ apply (IEEE.ltb_asym _ _ Hlt).
           ++ apply (IEEE.ltb_step _ _ _ Hlt). apply Hgt, in_or_app; auto.
      * exists b, w, a. split; [|auto].
        rewrite <- E. rewrite <- app_assoc. reflexivity.
    + destruct (IH seen m (rest ++ [x]) Hkey') as (b & w & a & E & Hmax & Hfm).
      * destruct Hinv as [Hgt Heq]. split; [|exact Heq].
        intros y Hy. rewrite app_assoc in Hy.
        apply in_app_or in Hy. destruct Hy as [Hy|[->|[]]]; auto.
      * exists b, w, a. split; [|auto].
        rewrite <- E. rewrite <- app_assoc. reflexivity.
Qed.

Lemma max_first_maximal (it : list A) :
  it <> [] ->
  (forall x, In x it -> key x = Ok (f x)) ->
  exists before w after,
    it = before ++ w :: after /\ Py.max key it = Ok w /\ first_maximal f before w after.
Proof.
  destruct it as [|m it]; [congruence|]. intros _ Hkey.
  simpl. rewrite (Hkey m (or_introl eq_refl)). simpl.
  apply (max_from_first_maximal it [] m []).
  - intros x Hx. apply Hkey. right. exact Hx.
  - split; intros x [].
Qed.

End MaxFacts.

Lemma sum_bool_from (l : list bool) (acc : nat) :
  fold_left (fun a (b : bool) => if b then S a else a) l acc
  = acc + length (filter (fun b => b) l).
Proof.
  revert acc. induction l as [|b l IH]; intros acc; simpl; [lia|].
  rewrite IH. destruct b; simpl; lia.
Qed.

Lemma sum_bool_map {A : Type} (p : A -> bool) (l : list A) :
  Py.sum_bool (map p l) = length (filter p l).
Proof.
  unfold Py.sum_bool. rewrite sum_bool_from. simpl.
  induction l as [|x l IH]; simpl; [reflexivity|].
  destruct (p x); simpl; rewrite IH; reflexivity.
Qed.

(** ** The loop of cell 3 *)

Section LoopFacts.

Variable estimator : Type.
Variable fit : estimator -> frame -> vec -> res estimator.
Variable predict : estimator -> frame -> res vec.

Lemma same_frame_refl (nb : notebook estimator) : same_frame nb nb.
Proof. repeat split. Qed.

Lemma same_frame_trans (a b c : notebook estimator) :
  same_frame a b -> same_frame b c -> same_frame a c.
Proof.
  unfold same_frame.
  intros (H1 & H2 & H3 & H4 & H5 & H6 & H7) (G1 & G2 & G3 & G4 & G5 & G6 & G7).
  repeat split; congruence.
Qed.

Lemma train_and_evaluate_inv (nb nb' : notebook estimator) (name : string)
    (model : estimator) :
  train_and_evaluate fit predict nb name model = Ok nb' ->
  same_frame nb nb' /\ recorded fit predict nb nb' name model /\
  (forall k, k <> name ->
     Py.dict_get (models nb') k = Py.dict_get (models nb) k /\
     Py.dict_get (predictions nb') k = Py.dict_get (predictions nb) k /\
     Py.dict_get (results nb') k = Py.dict_get (results nb) k) /\
  Py.keys (results nb') = add_key (Py.keys (results nb)) name.
Proof.
  unfold train_and_evaluate. intros H.
  bind_inv H. bind_inv H. bind_inv H. bind_inv H. bind_inv H.
  injection H as <-. simpl. split; [repeat split|]. split.
  - exists a, a0, a1, a2, a3. simpl. rewrite !dict_get_set_same. repeat split; assumption.
  - split.
    + intros k Hk. rewrite !dict_get_set_other by congruence. repeat split.
    + apply keys_dict_set.
Qed.

Lemma for_items_inv (items : list (string * estimator)) :
  forall nb nb' : notebook estimator,
    for_items fit predict items nb = Ok nb' ->
    same_frame nb nb' /\
    (forall k, ~ In k (map fst items) ->
       Py.dict_get (models nb') k = Py.dict_get (models nb) k /\
       Py.dict_get (predictions nb') k = Py.dict_get (predictions nb) k /\
       Py.dict_get (results nb') k = Py.dict_get (results nb) k) /\
    Py.keys (results nb') = fold_left add_key (map fst items) (Py.keys (results nb)) /\
    (NoDup (map fst items) ->
     forall name model, In (name, model) items -> recorded fit predict nb nb' name model).
Proof.
  induction items as [|[name model] items IH]; intros nb nb' H; simpl in H.
  - injection H as <-. split; [apply same_frame_refl|]. split; [auto|]. split; [reflexivity|].
    intros _ ? ? [].
  - bind_inv H.
    destruct (train_and_evaluate_inv _ _ _ _ E) as (Hf1 & Hrec & Hoth1 & Hk1).
    destruct (IH _ _ H) as (Hf2 & Hoth2 & Hk2 & Hall).
    split; [eapply same_frame_trans; eassumption|]. split; [|split].
    + intros k Hk. simpl in Hk.
      destruct (Hoth2 k) as (M2 & P2 & R2'); [tauto|].
      destruct (Hoth1 k) as (M1 & P1 & R1); [intros ->; tauto|].
      repeat split; congruence.
    + simpl. rewrite Hk2, Hk1. reflexivity.
    + intros Hnd name' model' Hin. simpl in Hnd. inversion Hnd as [|? ? Hnotin Hnd']; subst.
      destruct Hin as [Heq|Hin].
      * injection Heq as <- <-.
        destruct (Hoth2 name Hnotin) as (M2 & P2 & R2').
        destruct Hrec as (m' & ytr & yte & trm & tem & F & P1 & P2' & C1 & C2 & G1 & G2 & G3).
        exists m', ytr, yte, trm, tem. repeat split; try assumption; congruence.
      * destruct (Hall Hnd' name' model' Hin)
          as (m' & ytr & yte & trm & tem & F & P1 & P2' & C1 & C2 & G1 & G2 & G3).
        destruct Hf1 as (X1 & X2 & Y1 & Y2 & _).
        exists m', ytr, yte, trm, tem. rewrite X1, X2, Y1, Y2 in *.
        repeat split; assumption.
Qed.

Variable LinearRegression : estimator.
Variable Ridge : float -> estimator.
Variable Lasso : float -> estimator.
Variable ElasticNet : float -> float -> estimator.

Lemma cell3_inv (nb nb3 : notebook estimator) :
  cell3 LinearRegression Ridge Lasso ElasticNet fit predict nb = Ok nb3 ->
  exists nb1 name r best_model,
    comparison_loop fit predict
      (cell3_assignments LinearRegression Ridge Lasso ElasticNet nb) = Ok nb1 /\
    best_model_name (results nb1) = Ok name /\
    Py.dict_get (results nb1) name = Ok r /\
    Py.dict_get (models nb1) name = Ok best_model /\
    X_train nb3 = X_train nb1 /\ X_test nb3 = X_test nb1 /\
    y_train nb3 = y_train nb1 /\ y_test nb3 = y_test nb1 /\
    models nb3 = models nb1 /\ results nb3 = results nb1 /\
    predictions nb3 = predictions nb1 /\
    best nb3 = Some (name, best_model) /\
    stdout nb3 = (stdout nb1 ++ display_results (results nb1)) ++ [BestModel name (Test_R2 r)] /\
    disk nb3 = disk nb1.
Proof.
  unfold cell3. intros H.
  bind_inv H. bind_inv H. bind_inv H. bind_inv H.
  injection H as <-. simpl in *.
  exists a, a0, a1, a2. repeat split; assumption.
Qed.

End LoopFacts.

(** ** Cell 3 over library calls that act on the session, and cell 6 *)

Lemma returning_keeps_frame {estimator A : Type} (call : res A) :
  keeps_frame (estimator := estimator) (InPlace.returning call).
Proof.
  intros nb a nb' H. unfold InPlace.returning in H.
  destruct call; simpl in H; [|discriminate]. injection H as _ <-. repeat split.
Qed.

Section InPlaceFacts.

Variable estimator : Type.
Variable fit :
  estimator -> frame -> vec -> notebook estimator -> res (estimator * notebook estimator).
Variable predict :
  estimator -> frame -> notebook estimator -> res (vec * notebook estimator).

Hypothesis fit_keeps_frame : forall model X y, keeps_frame (fit model X y).
Hypothesis predict_keeps_frame : forall model X, keeps_frame (predict model X).

Lemma in_place_train_and_evaluate_frame (nb nb' : notebook estimator) (name : string)
    (model : estimator) :
  InPlace.train_and_evaluate fit predict nb name model = Ok nb' ->
  same_frame nb nb'.
Proof.
  unfold InPlace.train_and_evaluate. intros H.
  bind_inv H. destruct a as [model1 nb1]. apply fit_keeps_frame in E.
  bind_inv H. destruct a as [y_train_pred nb2]. apply predict_keeps_frame in E0.
  bind_inv H. destruct a as [y_test_pred nb3]. apply predict_keeps_frame in E1.
  bind_inv H. bind_inv H. injection H as <-.
  apply (same_frame_trans _ nb nb1); [exact E|].
  apply (same_frame_trans _ nb1 nb2); [exact E0|].
  apply (same_frame_trans _ nb2 nb3); [exact E1|].
  repeat split.
Qed.

Lemma in_place_for_items_frame (items : list (string * estimator)) :
  forall nb nb' : notebook estimator,
    InPlace.for_items fit predict items nb = Ok nb' -> same_frame nb nb'.
Proof.
  induction items as [|[name model] items IH]; intros nb nb' H; simpl in H.
  - injection H as <-. apply same_frame_refl.
  - bind_inv H. eapply same_frame_trans.
    + eapply in_place_train_and_evaluate_frame, E.
    + apply IH, H.
Qed.

End InPlaceFacts.

Section SelectionFacts.

Variable estimator : Type.
Variable LinearRegression : estimator.
Variable Ridge : float -> estimator.
Variable Lasso : float -> estimator.
Variable ElasticNet : float -> float -> estimator.
Variable fit :
  estimator -> frame -> vec -> notebook estimator -> res (estimator * notebook estimator).
Variable predict :
  estimator -> frame -> notebook estimator -> res (vec * notebook estimator).

Lemma in_place_cell3_inv (nb nb3 : notebook estimator) :
  InPlace.cell3 LinearRegression Ridge Lasso ElasticNet fit predict nb = Ok nb3 ->
  exists nb1 name r best_model,
    InPlace.comparison_loop fit predict
      (cell3_assignments LinearRegression Ridge Lasso ElasticNet nb) = Ok nb1 /\
    best_model_name (results nb1) = Ok name /\
    Py.dict_get (results nb1) name = Ok r /\
    Py.dict_get (models nb1) name = Ok best_model /\
    X_train nb3 = X_train nb1 /\ X_test nb3 = X_test nb1 /\
    y_train nb3 = y_train nb1 /\ y_test nb3 = y_test nb1 /\
    models nb3 = models nb1 /\ results nb3 = results nb1 /\
    predictions nb3 = predictions nb1 /\
    best nb3 = Some (name, best_model) /\
    stdout nb3 = (stdout nb1 ++ display_results (results nb1)) ++ [BestModel name (Test_R2 r)] /\
    disk nb3 = disk nb1.
Proof.
  unfold InPlace.cell3. intros H.
  bind_inv H. bind_inv H. bind_inv H. bind_inv H.
  injection H as <-. simpl in *.
  exists a, a0, a1, a2. repeat split; assumption.
Qed.

Variable open_wb : string -> res unit.
Variable pickle_dump : estimator -> res unit.

Lemma cell6_inv (nb nb6 : notebook estimator) :
  cell6 open_wb pickle_dump nb = Ok nb6 ->
  exists name best_model r,
    open_wb model_path = Ok tt /\
    best nb = Some (name, best_model) /\
    pickle_dump best_model = Ok tt /\
    Py.dict_get (results nb) name = Ok r /\
    disk nb6 = (model_path, best_model) :: disk nb /\
    X_train nb6 = X_train nb /\ X_test nb6 = X_test nb /\
    y_train nb6 = y_train nb /\ y_test nb6 = y_test nb /\
    models nb6 = models nb /\ results nb6 = results nb /\
    predictions nb6 = predictions nb /\ best nb6 = best nb.
Proof.
  unfold cell6. intros H. bind_inv H. destruct a.
  destruct (best nb) as [[name bm]|]; [|discriminate].
  bind_inv H. destruct a. bind_inv H. injection H as <-. simpl.
  exists name, bm, a. repeat split; assumption.
Qed.

End SelectionFacts.

(** Over library calls that return the session as they found it, the
    second reading of cell 3 is the first. *)
Lemma returning_cell3 (estimator : Type) (LinearRegression : estimator)
    (Ridge Lasso : float -> estimator) (ElasticNet : float -> float -> estimator)
    (fit : estimator -> frame -> vec -> res estimator)
    (predict : estimator -> frame -> res vec) (nb : notebook estimator) :
  InPlace.cell3 LinearRegression Ridge Lasso ElasticNet
    (fun model X y => InPlace.returning (fit model X y))
    (fun model X => InPlace.returning (predict model X)) nb
  = cell3 LinearRegression Ridge Lasso ElasticNet fit predict nb.
Proof.
  assert (Hbody : forall nb name model,
            InPlace.train_and_evaluate
              (fun model X y => InPlace.returning (fit model X y))
              (fun model X => InPlace.returning (predict model X)) nb name model
            = train_and_evaluate fit predict nb name model).
  { intros nb0 name model. unfold InPlace.train_and_evaluate, train_and_evaluate,
      InPlace.returning.
    destruct (fit model (X_train nb0) (y_train nb0)) as [model'|]; simpl; [|reflexivity].
    destruct (predict model' (X_train nb0)) as [p1|]; simpl; [|reflexivity].
    destruct (predict model' (X_test nb0)) as [p2|]; simpl; reflexivity. }
  assert (Hloop : forall items nb,
            InPlace.for_items
              (fun model X y => InPlace.returning (fit model X y))
              (fun model X => InPlace.returning (predict model X)) items nb
            = for_items fit predict items nb).
  { induction items as [|[name model] items IH]; intros nb0; simpl; [reflexivity|].
    rewrite Hbody. destruct (train_and_evaluate fit predict nb0 name model); simpl;
      [apply IH|reflexivity]. }
  unfold InPlace.cell3, cell3, InPlace.comparison_loop, comparison_loop.
  rewrite Hloop. reflexivity.
Qed.

Lemma best_model_name_ridge (results : Py.dict result) :
  Py.keys results = ["Linear Regression"; "Ridge"; "Lasso"; "ElasticNet"]%string ->
  (exists r, Py.dict_get results "Linear Regression" = Ok r /\
             within 0.96675 0.96685 (Test_R2 r) = true) ->
  (exists r, Py.dict_get results "Ridge" = Ok r /\
             within 0.96715 0.96725 (Test_R2 r) = true) ->
  (exists r, Py.dict_get results "Lasso" = Ok r /\
             within 0.53975 0.53985 (Test_R2 r) = true) ->
  (exists r, Py.dict_get results "ElasticNet" = Ok r /\
             within 0.76935 0.76945 (Test_R2 r) = true) ->
  best_model_name results = Ok "Ridge"%string.
Proof.
  intros Hk (r1 & G1 & W1) (r2 & G2 & W2) (r3 & G3 & W3) (r4 & G4 & W4).
  destruct results as [|[k1 v1] [|[k2 v2] [|[k3 v3] [|[k4 v4] [|? ?]]]]]; try discriminate.
  injection Hk as -> -> -> ->.
  simpl in G1, G2, G3, G4.
  injection G1 as ->. injection G2 as ->. injection G3 as ->. injection G4 as ->.
  unfold best_model_name. simpl.
  destruct (IEEE.within_apart _ _ _ _ _ _ W1 W2 eq_refl) as [L12 _].
  destruct (IEEE.within_apart _ _ _ _ _ _ W3 W2 eq_refl) as [_ L23].
  destruct (IEEE.within_apart _ _ _ _ _ _ W4 W2 eq_refl) as [_ L24].
  rewrite L12. simpl. rewrite L23. simpl. rewrite L24. reflexivity.
Qed.

(** ** Lists: positional indexing, masks, sortedness *)

Lemma map_nth_seq {A : Type} (a : list A) (d : A) :
  map (fun i => nth i a d) (seq 0 (length a)) = a.
Proof.
  induction a as [|x a IH]; simpl; [reflexivity|].
  f_equal. rewrite <- seq_shift, map_map. exact IH.
Qed.

Lemma Permutation_seq_lt (p : list nat) (n : nat) :
  Permutation p (seq 0 n) -> forall i, In i p -> i < n.
Proof.
  intros H i Hi. apply (Permutation_in _ H), in_seq in Hi. lia.
Qed.

Lemma Permutation_map_nth {A : Type} (a : list A) (d : A) (p : list nat) :
  Permutation p (seq 0 (length a)) -> Permutation (map (fun i => nth i a d) p) a.
Proof.
  intros H. eapply Permutation_trans; [apply Permutation_map, H|].
  rewrite map_nth_seq. apply Permutation_refl.
Qed.

Lemma filter_none {A : Type} (p : A -> bool) (l : list A) :
  (forall x, In x l -> p x = false) -> filter p l = [].
Proof.
  induction l as [|x l IH]; intros H; simpl; [reflexivity|].
  rewrite (H x (or_introl eq_refl)). apply IH. intros y Hy. apply H. right. exact Hy.
Qed.

Lemma filter_partition {A : Type} (p : A -> bool) (a : list A) :
  Permutation (filter (fun x => negb (p x)) a ++ filter p a) a.
Proof.
  induction a as [|x a IH]; simpl; [constructor|].
  destruct (p x); simpl.
  - apply Permutation_sym, Permutation_cons_app, Permutation_sym, IH.
  - constructor. exact IH.
Qed.

Section Sortedness.

Variable A : Type.
Variable R : A -> A -> Prop.

Lemma StronglySorted_app (l1 l2 : list A) :
  StronglySorted R l1 -> StronglySorted R l2 ->
  (forall x y, In x l1 -> In y l2 -> R x y) ->
  StronglySorted R (l1 ++ l2).
Proof.
  induction l1 as [|a l1 IH]; intros H1 H2 Hx; simpl; [exact H2|].
  inversion H1 as [|? ? Hs Hf]; subst. constructor.
  - apply IH; [assumption|assumption|]. intros x y Hi Hj. apply Hx; [right|]; assumption.
  - apply Forall_app. split; [exact Hf|].
    apply Forall_forall. intros y Hy. apply Hx; [left; reflexivity|exact Hy].
Qed.

Lemma StronglySorted_rev (l : list A) :
  StronglySorted (fun x y => R y x) l -> StronglySorted R (rev l).
Proof.
  induction 1 as [|a l Hs IH Hf]; simpl; [constructor|].
  apply StronglySorted_app; [exact IH|repeat constructor|].
  intros x y Hx [<-|[]]. apply in_rev in Hx.
  exact (proj1 (Forall_forall _ _) Hf x Hx).
Qed.

Lemma StronglySorted_all (l : list A) :
  (forall x y, In x l -> In y l -> R x y) -> StronglySorted R l.
Proof.
  induction l as [|a l IH]; intros H; constructor.
  - apply IH. intros x y Hx Hy. apply H; right; assumption.
  - apply Forall_forall. intros y Hy. apply H; [left; reflexivity|right; exact Hy].
Qed.

End Sortedness.

Lemma StronglySorted_map {A B : Type} (f : A -> B) (R : B -> B -> Prop) (l : list A) :
  StronglySorted R (map f l) -> StronglySorted (fun x y => R (f x) (f y)) l.
Proof.
  induction l as [|a l IH]; intros H; simpl in *; constructor;
    inversion H as [|? ? Hs Hf]; subst.
  - apply IH, Hs.
  - apply Forall_forall. intros y Hy.
    apply (proj1 (Forall_forall _ _) Hf). apply in_map, Hy.
Qed.

Lemma StronglySorted_nth {A : Type} (R : A -> A -> Prop) (l : list A) (d : A) :
  (forall i j, i < j -> j < length l -> R (nth i l d) (nth j l d)) -> StronglySorted R l.
Proof.
  induction l as [|a l IH]; intros H; constructor.
  - apply IH. intros i j Hij Hj. apply (H (S i) (S j)); simpl; lia.
  - apply Forall_forall. intros y Hy.
    destruct (In_nth l y d Hy) as (n & Hn & <-). apply (H 0 (S n)); simpl; lia.
Qed.

(** A sorted list stays sorted for a relation that follows from the first
    on its members. *)
Lemma StronglySorted_weaken {A : Type} (R R' : A -> A -> Prop) (l : list A) :
  (forall x y, In x l -> In y l -> R x y -> R' x y) ->
  StronglySorted R l -> StronglySorted R' l.
Proof.
  intros H Hs. induction Hs as [|a l Hs IH Hf]; constructor.
  - apply IH. intros x y Hx Hy. apply H; right; assumption.
  - apply Forall_forall. intros y Hy. apply H; [left; reflexivity|right; exact Hy|].
    exact (proj1 (Forall_forall _ _) Hf y Hy).
Qed.

(** ** numpy's [argsort] kernel sorts

    The order of the kernels is a total preorder. *)

Lemma less_irrefl (a : float) : np.less a a = false.
Proof.
  unfold np.less. destruct (is_nan a) eqn:E; simpl.
  - rewrite IEEE.ltb_nan_l by exact E. reflexivity.
  - rewrite orb_false_r. rewrite IEEE.ltb_negb_leb by assumption.
    destruct (IEEE.leb_total a a E E) as [H|H]; rewrite H; reflexivity.
Qed.

Lemma less_asym (a b : float) : np.less a b = true -> np.less b a = false.
Proof.
  unfold np.less. destruct (is_nan a) eqn:Ea, (is_nan b) eqn:Eb; simpl;
    rewrite ?orb_false_r, ?orb_true_r;
    rewrite ?(IEEE.ltb_nan_l a b Ea), ?(IEEE.ltb_nan_r a b Eb),
            ?(IEEE.ltb_nan_l b a Eb), ?(IEEE.ltb_nan_r b a Ea); try congruence.
  intros H. apply (IEEE.ltb_asym _ _ H).
Qed.

(** "Not below" is transitive: the kernels sort by a total preorder. *)
Lemma less_trans (a b c : float) :
  np.less b a = false -> np.less c b = false -> np.less c a = false.
Proof.
  unfold np.less. destruct (is_nan a) eqn:Ea, (is_nan b) eqn:Eb, (is_nan c) eqn:Ec; simpl;
    rewrite ?orb_false_r, ?orb_true_r;
    rewrite ?(IEEE.ltb_nan_l c a Ec), ?(IEEE.ltb_nan_r c a Ea); try congruence.
  rewrite !IEEE.ltb_negb_leb by assumption.
  intros H1 H2. apply negb_false_iff in H1, H2.
  rewrite (IEEE.leb_trans _ _ _ H1 H2). reflexivity.
Qed.

(** *** Index arrays *)

Lemma put_length (t : list nat) (i x : nat) :
  i < length t -> length (np.put t i x) = length t.
Proof.
  intros H. unfold np.put. rewrite length_app, length_firstn.
  change (length (x :: skipn (S i) t)) with (S (length (skipn (S i) t))).
  rewrite length_skipn. lia.
Qed.

Lemma get_put (t : list nat) (i x k : nat) :
  i < length t -> np.get (np.put t i x) k = if k =? i then x else np.get t k.
Proof.
  intros H. unfold np.get, np.put.
  assert (L : length (firstn i t) = i) by (rewrite length_firstn; lia).
  destruct (Nat.eqb_spec k i) as [->|Hne].
  - rewrite <- L at 1. apply nth_middle.
  - destruct (Nat.lt_ge_cases k i) as [Hlt|Hge].
    + rewrite app_nth1 by lia. rewrite nth_firstn.
      destruct (Nat.ltb_spec k i); [reflexivity|lia].
    + rewrite app_nth2 by lia. rewrite L.
      destruct (k - i) as [|d] eqn:E; [lia|].
      change (nth (S d) (x :: skipn (S i) t) 0) with (nth d (skipn (S i) t) 0).
      rewrite nth_skipn. f_equal. lia.
Qed.

Lemma get_ext (t t' : list nat) :
  length t = length t' -> (forall k, k < length t -> np.get t k = np.get t' k) -> t = t'.
Proof. intros L H. apply (nth_ext t t' 0 0 L H). Qed.

Lemma put_get (t : list nat) (i : nat) : i < length t -> np.put t i (np.get t i) = t.
Proof.
  intros H. apply get_ext; [apply put_length, H|].
  intros k _. rewrite get_put by exact H. destruct (Nat.eqb_spec k i); congruence.
Qed.

Lemma put_put (t : list nat) (i x y : nat) :
  i < length t -> np.put (np.put t i x) i y = np.put t i y.
Proof.
  intros H. apply get_ext; [rewrite !put_length; rewrite ?put_length; auto|].
  intros k _. rewrite !get_put; rewrite ?put_length; auto.
  destruct (k =? i); reflexivity.
Qed.

Lemma swap_length (t : list nat) (i j : nat) :
  i < length t -> j < length t -> length (np.INTP_SWAP t i j) = length t.
Proof.
  intros Hi Hj. unfold np.INTP_SWAP. rewrite !put_length; rewrite ?put_length; auto.
Qed.

Lemma get_swap (t : list nat) (i j k : nat) :
  i < length t -> j < length t ->
  np.get (np.INTP_SWAP t i j) k
  = if k =? j then np.get t i else if k =? i then np.get t j else np.get t k.
Proof.
  intros Hi Hj. unfold np.INTP_SWAP.
  rewrite !get_put; rewrite ?put_length; auto.
Qed.

Lemma count_put (t : list nat) (i x y : nat) :
  i < length t ->
  count_occ Nat.eq_dec (np.put t i x) y + (if Nat.eq_dec (np.get t i) y then 1 else 0)
  = count_occ Nat.eq_dec t y + (if Nat.eq_dec x y then 1 else 0).
Proof.
  intros H. rewrite <- (put_get t i H) at 3. unfold np.put.
  rewrite !count_occ_app. simpl.
  destruct (Nat.eq_dec x y), (Nat.eq_dec (np.get t i) y); lia.
Qed.

Lemma swap_perm (t : list nat) (i j : nat) :
  i < length t -> j < length t -> Permutation (np.INTP_SWAP t i j) t.
Proof.
  intros Hi Hj. apply (Permutation_count_occ Nat.eq_dec). intros y.
  unfold np.INTP_SWAP.
  pose proof (count_put t i (np.get t j) y Hi) as H1.
  pose proof (count_put (np.put t i (np.get t j)) j (np.get t i) y) as H2.
  rewrite put_length in H2 by exact Hi. specialize (H2 Hj).
  rewrite get_put in H2 by exact Hi.
  assert (E : (if j =? i then np.get t j else np.get t j) = np.get t j)
    by (destruct (j =? i); reflexivity).
  rewrite E in H2. lia.
Qed.

(** The put that closes a shift is a swap of the array with the value in
    its hole. *)
Lemma put_shift (t : list nat) (i j x : nat) :
  i < length t -> j < length t -> i <> j ->
  np.put (np.put t i (np.get t j)) j x = np.INTP_SWAP (np.put t i x) i j.
Proof.
  intros Hi Hj Hne. apply get_ext.
  - rewrite swap_length; rewrite ?put_length; rewrite ?put_length; auto.
  - intros k _. rewrite get_swap; rewrite ?put_length; auto.
    rewrite !get_put; rewrite ?put_length; auto.
    rewrite Nat.eqb_refl.
    destruct (Nat.eqb_spec k j), (Nat.eqb_spec k i), (Nat.eqb_spec j i); subst; congruence.
Qed.

(** *** Rearrangements inside a range *)

Lemma rearranged_length (t t' : list nat) (pl pr : nat) :
  rearranged t t' pl pr -> length t' = length t.
Proof. intros [H _]. apply Permutation_length, H. Qed.

Lemma rearranged_refl (t : list nat) (pl pr : nat) : rearranged t t pl pr.
Proof. split; [apply Permutation_refl|]. split; [reflexivity|]. intros k Hk. eauto. Qed.

Lemma rearranged_trans (t1 t2 t3 : list nat) (pl pr : nat) :
  rearranged t1 t2 pl pr -> rearranged t2 t3 pl pr -> rearranged t1 t3 pl pr.
Proof.
  intros (P1 & O1 & I1) (P2 & O2 & I2). split; [|split].
  - eapply Permutation_trans; eassumption.
  - intros k Hk. rewrite O2, O1 by exact Hk. reflexivity.
  - intros k Hk. destruct (I2 k Hk) as (k' & Hk' & E). destruct (I1 k' Hk') as (k'' & Hk'' & E').
    exists k''. split; [exact Hk''|congruence].
Qed.

Lemma rearranged_widen (t t' : list nat) (pl pr pl' pr' : nat) :
  pl' <= pl -> pr <= pr' -> rearranged t t' pl pr -> rearranged t t' pl' pr'.
Proof.
  intros Hl Hr (P & O & I). split; [exact P|]. split.
  - intros k Hk. apply O. lia.
  - intros k Hk. destruct (Nat.lt_ge_cases k pl) as [H1|H1];
      [exists k; split; [lia|apply O; lia]|].
    destruct (Nat.lt_ge_cases pr k) as [H2|H2];
      [exists k; split; [lia|apply O; lia]|].
    destruct (I k) as (k' & Hk' & E); [lia|]. exists k'. split; [lia|exact E].
Qed.

Lemma rearranged_swap (t : list nat) (pl pr i j : nat) :
  pl <= i <= pr -> pl <= j <= pr -> i < length t -> j < length t ->
  rearranged t (np.INTP_SWAP t i j) pl pr.
Proof.
  intros Hi Hj Li Lj. split; [apply swap_perm; assumption|]. split.
  - intros k Hk. rewrite get_swap by assumption.
    destruct (Nat.eqb_spec k j); [lia|]. destruct (Nat.eqb_spec k i); [lia|]. reflexivity.
  - intros k Hk. rewrite get_swap by assumption.
    destruct (Nat.eqb_spec k j); [exists i; auto|].
    destruct (Nat.eqb_spec k i); [exists j; auto|]. exists k. auto.
Qed.

Section Kernel.

Variable v : vec.

Lemma key_swap (t : list nat) (i j k : nat) :
  i < length t -> j < length t ->
  np.key v (np.INTP_SWAP t i j) k
  = if k =? j then np.key v t i else if k =? i then np.key v t j else np.key v t k.
Proof.
  intros Hi Hj. unfold np.key. rewrite get_swap by assumption.
  destruct (k =? j), (k =? i); reflexivity.
Qed.

Lemma key_put (t : list nat) (i x k : nat) :
  i < length t ->
  np.key v (np.put t i x) k = if k =? i then nth x v nan else np.key v t k.
Proof.
  intros Hi. unfold np.key. rewrite get_put by assumption.
  destruct (k =? i); reflexivity.
Qed.

(** *** The partition *)

Lemma scan_up_spec (t : list nat) (vp : float) (s : nat) :
  forall fuel pi,
    pi < s -> s <= pi + fuel -> np.less (np.key v t s) vp = false ->
    pi < np.scan_up fuel v t vp pi <= s /\
    np.less (np.key v t (np.scan_up fuel v t vp pi)) vp = false /\
    forall k, pi < k < np.scan_up fuel v t vp pi -> np.less (np.key v t k) vp = true.
Proof.
  induction fuel as [|fuel IH]; intros pi H1 H2 Hs; [lia|]. simpl.
  destruct (np.less (np.key v t (S pi)) vp) eqn:E.
  - assert (S pi <> s) by (intros Heq; rewrite Heq in E; congruence).
    destruct (IH (S pi)) as (A & B & C); [lia|lia|exact Hs|].
    split; [lia|]. split; [exact B|].
    intros k Hk. destruct (Nat.eq_dec k (S pi)) as [->|]; [exact E|apply C; lia].
  - split; [lia|]. split; [exact E|]. intros k Hk. lia.
Qed.

Lemma scan_down_spec (t : list nat) (vp : float) (s : nat) :
  forall fuel pj,
    s < pj -> pj <= s + fuel -> np.less vp (np.key v t s) = false ->
    s <= np.scan_down fuel v t vp pj < pj /\
    np.less vp (np.key v t (np.scan_down fuel v t vp pj)) = false /\
    forall k, np.scan_down fuel v t vp pj < k < pj -> np.less vp (np.key v t k) = true.
Proof.
  induction fuel as [|fuel IH]; intros pj H1 H2 Hs; [lia|]. simpl.
  destruct (np.less vp (np.key v t (pj - 1))) eqn:E.
  - assert (pj - 1 <> s) by (intros Heq; rewrite Heq in E; congruence).
    destruct (IH (pj - 1)) as (A & B & C); [lia|lia|exact Hs|].
    split; [lia|]. split; [exact B|].
    intros k Hk. destruct (Nat.eq_dec k (pj - 1)) as [->|]; [exact E|apply C; lia].
  - split; [lia|]. split; [exact E|]. intros k Hk. lia.
Qed.

Lemma exchange_spec (vp : float) (pl pr : nat) :
  forall fuel t pi pj t' pi',
    pl <= pi -> pi < pj -> pj < pr -> pr < length t -> pj - pi <= fuel ->
    (forall k, pl <= k <= pi -> np.less vp (np.key v t k) = false) ->
    (forall k, pj <= k <= pr -> np.less (np.key v t k) vp = false) ->
    np.exchange fuel v t vp pi pj = (t', pi') ->
    rearranged t t' (S pi) (pj - 1) /\ pi < pi' <= pj /\
    (forall k, pl <= k < pi' -> np.less vp (np.key v t' k) = false) /\
    (forall k, pi' <= k <= pr -> np.less (np.key v t' k) vp = false).
Proof.
  induction fuel as [|fuel IH]; intros t pi pj t' pi' H1 H2 H3 H4 Hf Hlo Hhi E; [lia|].
  simpl in E.
  destruct (scan_up_spec t vp pj (length t) pi) as (A1 & A2 & A3);
    [lia|lia|apply Hhi; lia|].
  destruct (scan_down_spec t vp pi (length t) pj) as (B1 & B2 & B3);
    [lia|lia|apply Hlo; lia|].
  set (pi1 := np.scan_up (length t) v t vp pi) in *.
  set (pj1 := np.scan_down (length t) v t vp pj) in *.
  assert (Hlo' : forall k, pl <= k < pi1 -> np.less vp (np.key v t k) = false).
  { intros k Hk. destruct (Nat.le_gt_cases k pi) as [L|L]; [apply Hlo; lia|].
    apply less_asym, A3. lia. }
  assert (Hhi' : forall k, pj1 < k <= pr -> np.less (np.key v t k) vp = false).
  { intros k Hk. destruct (Nat.le_gt_cases pj k) as [L|L]; [apply Hhi; lia|].
    apply less_asym, B3. lia. }
  destruct (Nat.leb_spec pj1 pi1) as [L|L].
  - injection E as <- <-. split; [apply rearranged_refl|]. split; [lia|]. split.
    + exact Hlo'.
    + intros k Hk. destruct (Nat.eq_dec k pi1) as [->|]; [exact A2|]. apply Hhi'. lia.
  - destruct (IH (np.INTP_SWAP t pi1 pj1) pi1 pj1 t' pi') as (R & P & Q1 & Q2);
      try lia; try exact E.
    + rewrite swap_length by lia. lia.
    + intros k Hk. rewrite key_swap by lia.
      destruct (Nat.eqb_spec k pj1); [lia|].
      destruct (Nat.eqb_spec k pi1); [exact B2|]. apply Hlo'. lia.
    + intros k Hk. rewrite key_swap by lia.
      destruct (Nat.eqb_spec k pj1); [exact A2|].
      destruct (Nat.eqb_spec k pi1); [lia|]. apply Hhi'. lia.
    + split; [|split; [lia|split; assumption]].
      eapply rearranged_trans.
      * apply (rearranged_swap t (S pi) (pj - 1) pi1 pj1); lia.
      * eapply rearranged_widen; [| |exact R]; lia.
Qed.

Lemma partition_spec (t : list nat) (pl pr : nat) (t' : list nat) (pi : nat) :
  pl + 2 <= pr -> pr < length t ->
  np.partition v t pl pr = (t', pi) ->
  rearranged t t' pl pr /\ pl < pi < pr /\
  (forall k, pl <= k < pi -> np.less (np.key v t' pi) (np.key v t' k) = false) /\
  (forall k, pi < k <= pr -> np.less (np.key v t' k) (np.key v t' pi) = false).
Proof.
  intros Hr Hn. unfold np.partition.
  set (pm := pl + Nat.div2 (pr - pl)).
  assert (Hpm : pl < pm < pr).
  { unfold pm. pose proof (Nat.div2_odd (pr - pl)) as Ho.
    destruct (Nat.odd (pr - pl)); simpl Nat.b2n in Ho; lia. }
  set (t1 := if np.less (np.key v t pm) (np.key v t pl) then np.INTP_SWAP t pm pl else t).
  assert (L1 : length t1 = length t)
    by (unfold t1; destruct (np.less (np.key v t pm) (np.key v t pl));
        [apply swap_length; lia|reflexivity]).
  assert (R1 : rearranged t t1 pl pr)
    by (unfold t1; destruct (np.less (np.key v t pm) (np.key v t pl));
        [apply rearranged_swap; lia|apply rearranged_refl]).
  assert (O1 : np.less (np.key v t1 pm) (np.key v t1 pl) = false).
  { unfold t1. destruct (np.less (np.key v t pm) (np.key v t pl)) eqn:E; [|exact E].
    rewrite !key_swap by lia. rewrite Nat.eqb_refl.
    destruct (Nat.eqb_spec pm pl); [lia|]. rewrite Nat.eqb_refl.
    apply less_asym, E. }
  set (t2 := if np.less (np.key v t1 pr) (np.key v t1 pm) then np.INTP_SWAP t1 pr pm else t1).
  assert (L2 : length t2 = length t)
    by (unfold t2; destruct (np.less (np.key v t1 pr) (np.key v t1 pm));
        [rewrite swap_length; lia|lia]).
  assert (R2 : rearranged t1 t2 pl pr)
    by (unfold t2; destruct (np.less (np.key v t1 pr) (np.key v t1 pm));
        [apply rearranged_swap; lia|apply rearranged_refl]).
  assert (O2 : np.less (np.key v t2 pr) (np.key v t2 pm) = false /\
               np.less (np.key v t2 pr) (np.key v t2 pl) = false).
  { unfold t2. destruct (np.less (np.key v t1 pr) (np.key v t1 pm)) eqn:E.
    - rewrite !key_swap by lia. rewrite !Nat.eqb_refl.
      destruct (Nat.eqb_spec pr pm); [lia|]. destruct (Nat.eqb_spec pl pm); [lia|].
      destruct (Nat.eqb_spec pl pr); [lia|].
      split; [apply less_asym, E|exact O1].
    - split; [exact E|]. eapply less_trans; eassumption. }
  destruct O2 as [O2 O2'].
  set (t3 := if np.less (np.key v t2 pm) (np.key v t2 pl) then np.INTP_SWAP t2 pm pl else t2).
  assert (L3 : length t3 = length t)
    by (unfold t3; destruct (np.less (np.key v t2 pm) (np.key v t2 pl));
        [rewrite swap_length; lia|lia]).
  assert (R3 : rearranged t2 t3 pl pr)
    by (unfold t3; destruct (np.less (np.key v t2 pm) (np.key v t2 pl));
        [apply rearranged_swap; lia|apply rearranged_refl]).
  assert (O3 : np.less (np.key v t3 pm) (np.key v t3 pl) = false /\
               np.less (np.key v t3 pr) (np.key v t3 pm) = false).
  { unfold t3. destruct (np.less (np.key v t2 pm) (np.key v t2 pl)) eqn:E.
    - rewrite !key_swap by lia. rewrite !Nat.eqb_refl.
      destruct (Nat.eqb_spec pm pl); [lia|]. destruct (Nat.eqb_spec pr pl); [lia|].
      destruct (Nat.eqb_spec pr pm); [lia|].
      split; [apply less_asym, E|exact O2'].
    - split; [exact E|exact O2]. }
  destruct O3 as [O3 O3'].
  set (vp := np.key v t3 pm).
  set (t4 := np.INTP_SWAP t3 pm (pr - 1)).
  assert (L4 : length t4 = length t) by (unfold t4; rewrite swap_length; lia).
  assert (R4 : rearranged t3 t4 pl pr) by (apply rearranged_swap; lia).
  assert (K4 : np.key v t4 (pr - 1) = vp).
  { unfold t4. rewrite key_swap by lia. rewrite Nat.eqb_refl. reflexivity. }
  assert (K4l : np.key v t4 pl = np.key v t3 pl).
  { unfold t4. rewrite key_swap by lia.
    destruct (Nat.eqb_spec pl (pr - 1)); [lia|]. destruct (Nat.eqb_spec pl pm); [lia|].
    reflexivity. }
  assert (K4r : np.key v t4 pr = np.key v t3 pr).
  { unfold t4. rewrite key_swap by lia.
    destruct (Nat.eqb_spec pr (pr - 1)); [lia|]. destruct (Nat.eqb_spec pr pm); [lia|].
    reflexivity. }
  destruct (np.exchange (length t) v t4 vp pl (pr - 1)) as [t5 pi5] eqn:E5.
  intros E. injection E as <- <-.
  destruct (exchange_spec vp pl pr (length t) t4 pl (pr - 1) t5 pi5)
    as (R5 & P5 & Q1 & Q2); try lia; try exact E5.
  - intros k Hk. replace k with pl by lia. rewrite K4l. exact O3.
  - intros k Hk. destruct (Nat.eq_dec k pr) as [->|]; [rewrite K4r; exact O3'|].
    replace k with (pr - 1) by lia. rewrite K4. apply less_irrefl.
  - assert (L5 : length t5 = length t) by (rewrite (rearranged_length _ _ _ _ R5); exact L4).
    assert (K5 : np.key v t5 (pr - 1) = vp).
    { rewrite <- K4. unfold np.key. f_equal. apply R5. lia. }
    split; [|split; [lia|split]].
    + eapply rearranged_trans; [exact R1|]. eapply rearranged_trans; [exact R2|].
      eapply rearranged_trans; [exact R3|]. eapply rearranged_trans; [exact R4|].
      eapply rearranged_trans; [eapply rearranged_widen; [| |exact R5]; lia|].
      apply rearranged_swap; lia.
    + intros k Hk. rewrite !key_swap by lia.
      destruct (Nat.eqb_spec pi5 (pr - 1)) as [->|Hne].
      * destruct (Nat.eqb_spec k (pr - 1)); [lia|]. rewrite K5. apply Q1. lia.
      * rewrite Nat.eqb_refl. destruct (Nat.eqb_spec k (pr - 1)); [lia|].
        destruct (Nat.eqb_spec k pi5); [lia|]. rewrite K5. apply Q1. lia.
    + intros k Hk. rewrite !key_swap by lia.
      destruct (Nat.eqb_spec pi5 (pr - 1)) as [->|Hne].
      * destruct (Nat.eqb_spec k (pr - 1)); [lia|]. rewrite K5. apply Q2. lia.
      * rewrite Nat.eqb_refl. destruct (Nat.eqb_spec k (pr - 1)).
        -- rewrite K5. apply Q2. lia.
        -- destruct (Nat.eqb_spec k pi5); [lia|]. rewrite K5. apply Q2. lia.
Qed.

(** *** Insertion sort *)

Lemma insert_back_spec (pl pi vi : nat) :
  forall fuel t pj,
    pl <= pj <= pi -> pi < length t -> pj - pl <= fuel ->
    (forall a b, pl <= a -> a < b -> b <= pi -> b <> pj ->
       np.less (np.key v (np.put t pj vi) b) (np.key v (np.put t pj vi) a) = false) ->
    rearranged (np.put t pj vi) (np.insert_back fuel v t pl vi pj) pl pi /\
    sorted_on v (np.insert_back fuel v t pl vi pj) pl pi.
Proof.
  assert (Hstop : forall t pj,
            pl <= pj <= pi -> pi < length t ->
            (forall a b, pl <= a -> a < b -> b <= pi -> b <> pj ->
               np.less (np.key v (np.put t pj vi) b) (np.key v (np.put t pj vi) a) = false) ->
            (pl <? pj) && np.less (nth vi v nan) (np.key v t (pj - 1)) = false ->
            sorted_on v (np.put t pj vi) pl pi).
  { intros t pj Hj Hn Hs Hc i j Hi Hij Hjr.
    destruct (Nat.eq_dec j pj) as [->|Hne]; [|apply Hs; assumption].
    apply andb_false_iff in Hc. destruct Hc as [Hc|Hc];
      [apply Nat.ltb_ge in Hc; lia|].
    assert (Hkj : np.key v (np.put t pj vi) pj = nth vi v nan)
      by (rewrite key_put by lia; rewrite Nat.eqb_refl; reflexivity).
    assert (Hkp : np.key v (np.put t pj vi) (pj - 1) = np.key v t (pj - 1))
      by (rewrite key_put by lia; destruct (Nat.eqb_spec (pj - 1) pj); [lia|reflexivity]).
    rewrite Hkj. destruct (Nat.eq_dec i (pj - 1)) as [->|Hi'].
    - rewrite Hkp. exact Hc.
    - apply less_trans with (b := np.key v (np.put t pj vi) (pj - 1)).
      + apply Hs; lia.
      + rewrite Hkp. exact Hc. }
  induction fuel as [|fuel IH]; intros t pj Hj Hn Hf Hs.
  - simpl. split; [apply rearranged_refl|].
    apply Hstop; try assumption.
    destruct (Nat.ltb_spec pl pj); [lia|reflexivity].
  - simpl.
    destruct ((pl <? pj) && np.less (nth vi v nan) (np.key v t (pj - 1))) eqn:Hc.
    + apply andb_true_iff in Hc. destruct Hc as [Hc1 Hc2]. apply Nat.ltb_lt in Hc1.
      assert (Hsh : np.put (np.put t pj (np.get t (pj - 1))) (pj - 1) vi
                    = np.INTP_SWAP (np.put t pj vi) pj (pj - 1))
        by (apply put_shift; lia).
      assert (Lp : length (np.put t pj vi) = length t) by (apply put_length; lia).
      assert (Hkj : np.key v (np.put t pj vi) pj = nth vi v nan)
        by (rewrite key_put by lia; rewrite Nat.eqb_refl; reflexivity).
      assert (Hkp : np.key v (np.put t pj vi) (pj - 1) = np.key v t (pj - 1))
        by (rewrite key_put by lia; destruct (Nat.eqb_spec (pj - 1) pj); [lia|reflexivity]).
      destruct (IH (np.put t pj (np.get t (pj - 1))) (pj - 1)) as [R Sd].
      * lia.
      * rewrite put_length; lia.
      * lia.
      * rewrite Hsh. intros a b Ha Hab Hb Hne.
        rewrite !key_swap by lia.
        destruct (Nat.eqb_spec b (pj - 1)); [lia|].
        destruct (Nat.eqb_spec b pj) as [->|Hbj].
        -- destruct (Nat.eqb_spec a (pj - 1)) as [->|Ha'].
           ++ rewrite Hkj, Hkp. apply less_asym, Hc2.
           ++ destruct (Nat.eqb_spec a pj); [lia|]. apply Hs; lia.
        -- destruct (Nat.eqb_spec a (pj - 1)) as [->|Ha'].
           ++ apply Hs; lia.
           ++ destruct (Nat.eqb_spec a pj) as [->|Ha''].
              ** apply Hs; lia.
              ** apply Hs; lia.
      * split; [|exact Sd].
        eapply rearranged_trans; [|exact R]. rewrite Hsh.
        apply rearranged_swap; lia.
    + split; [apply rearranged_refl|]. apply Hstop; assumption.
Qed.

Lemma insertion_sort_spec (pl pr : nat) :
  forall fuel t pi,
    pl < pi -> pi <= pr + 1 -> pr < length t -> pr + 1 - pi <= fuel ->
    sorted_on v t pl (pi - 1) ->
    rearranged t (np.insertion_sort fuel v t pl pr pi) pl pr /\
    sorted_on v (np.insertion_sort fuel v t pl pr pi) pl pr.
Proof.
  induction fuel as [|fuel IH]; intros t pi H1 H2 Hn Hf Hs.
  - simpl. split; [apply rearranged_refl|]. replace pr with (pi - 1) by lia. exact Hs.
  - simpl. destruct (Nat.leb_spec pi pr) as [L|L].
    + destruct (insert_back_spec pl pi (np.get t pi) (length t) t pi) as [R Sd];
        try lia.
      * rewrite put_get by lia. intros a b Ha Hab Hb Hne. apply Hs; lia.
      * rewrite put_get in R by lia.
        pose proof (rearranged_length _ _ _ _ R) as Len.
        destruct (IH (np.insert_back (length t) v t pl (np.get t pi) pi) (S pi)) as [R' Sd'];
          try lia.
        -- replace (S pi - 1) with pi by lia. exact Sd.
        -- split; [|exact Sd'].
           eapply rearranged_trans; [|exact R'].
           eapply rearranged_widen; [| |exact R]; lia.
    + split; [apply rearranged_refl|]. replace pr with (pi - 1) by lia. exact Hs.
Qed.

(** *** Heap sort *)

(** Sifting the entry [tmp] down from the hole at node [i]: [put a (i - 1)
    tmp] is the array with [tmp] in the hole; every other node from [l] on
    is in order, and the parent of [i] is not below the children of [i]. *)
Lemma sift_spec (n l : nat) :
  forall fuel a tmp i j,
    1 <= l -> l <= i -> j = 2 * i -> i <= n -> n <= length a -> n + 1 - j <= fuel ->
    (forall k, l <= k -> k <> i -> heap_ok v (np.put a (i - 1) tmp) n k) ->
    (i = l \/
     exists p, l <= p /\ (i = 2 * p \/ i = 2 * p + 1) /\
       forall c, c = 2 * i \/ c = 2 * i + 1 -> c <= n ->
         np.less (np.key v (np.put a (i - 1) tmp) (p - 1))
                 (np.key v (np.put a (i - 1) tmp) (c - 1)) = false) ->
    rearranged (np.put a (i - 1) tmp) (np.sift fuel v a tmp i j n) (l - 1) (n - 1) /\
    forall k, l <= k -> heap_ok v (np.sift fuel v a tmp i j n) n k.
Proof.
  assert (Hleaf : forall a tmp i,
            (forall k, l <= k -> k <> i -> heap_ok v (np.put a (i - 1) tmp) n k) ->
            n < 2 * i ->
            forall k, l <= k -> heap_ok v (np.put a (i - 1) tmp) n k).
  { intros a tmp i Hk Hn k Hl. destruct (Nat.eq_dec k i) as [->|Hne]; [|apply Hk; assumption].
    split; intros; lia. }
  induction fuel as [|fuel IH]; intros a tmp i j Hl1 Hli Hj Hin Hna Hf Hheap Hpar.
  - simpl. split; [apply rearranged_refl|]. apply Hleaf; [exact Hheap|lia].
  - simpl. destruct (Nat.ltb_spec n j) as [Hnj|Hnj].
    + split; [apply rearranged_refl|]. apply Hleaf; [exact Hheap|lia].
    + set (L := np.put a (i - 1) tmp) in *.
      assert (LL : length L = length a) by (apply put_length; lia).
      assert (KL : forall x, x <> i - 1 -> np.key v L x = np.key v a x).
      { intros x Hx. unfold L. rewrite key_put by lia.
        destruct (Nat.eqb_spec x (i - 1)); [lia|reflexivity]. }
      assert (KLi : np.key v L (i - 1) = nth tmp v nan).
      { unfold L. rewrite key_put by lia. rewrite Nat.eqb_refl. reflexivity. }
      set (j' := if (j <? n) && np.less (np.key v a (j - 1)) (np.key v a j) then S j else j).
      assert (Hj' : (j' = 2 * i \/ j' = 2 * i + 1) /\ j' <= n /\
                    forall c, c = 2 * i \/ c = 2 * i + 1 -> c <= n ->
                      np.less (np.key v a (j' - 1)) (np.key v a (c - 1)) = false).
      { unfold j'. destruct (Nat.ltb_spec j n) as [Hjn|Hjn]; cbn [andb].
        - destruct (np.less (np.key v a (j - 1)) (np.key v a j)) eqn:E.
          + split; [lia|]. split; [lia|]. intros c [->| ->] Hc.
            * replace (S j - 1) with j by lia. replace (2 * i - 1) with (j - 1) by lia.
              apply less_asym, E.
            * replace (S j - 1) with j by lia. replace (2 * i + 1 - 1) with j by lia.
              apply less_irrefl.
          + split; [lia|]. split; [lia|]. intros c [->| ->] Hc.
            * replace (2 * i - 1) with (j - 1) by lia. apply less_irrefl.
            * replace (2 * i + 1 - 1) with j by lia. exact E.
        - split; [lia|]. split; [lia|]. intros c [->| ->] Hc; [|lia].
          replace (2 * i - 1) with (j - 1) by lia. apply less_irrefl. }
      destruct Hj' as (Hjc & Hjn & Hdom). clearbody j'.
      destruct (np.less (nth tmp v nan) (np.key v a (j' - 1))) eqn:Hlt.
      * assert (Hsh : np.put (np.put a (i - 1) (np.get a (j' - 1))) (j' - 1) tmp
                      = np.INTP_SWAP L (i - 1) (j' - 1))
          by (apply put_shift; lia).
        assert (KS : forall x, np.key v (np.INTP_SWAP L (i - 1) (j' - 1)) x
                     = if x =? j' - 1 then nth tmp v nan
                       else if x =? i - 1 then np.key v a (j' - 1) else np.key v a x).
        { intros x. rewrite key_swap by lia. rewrite KLi.
          destruct (Nat.eqb_spec x (j' - 1)); [reflexivity|].
          destruct (Nat.eqb_spec x (i - 1)); [apply KL; lia|apply KL; lia]. }
        destruct (IH (np.put a (i - 1) (np.get a (j' - 1))) tmp j' (j' + j')) as [R Hh];
          try lia.
        -- rewrite put_length; lia.
        -- rewrite Hsh. intros k Hk Hkj.
           destruct (Nat.eq_dec k i) as [->|Hki].
           ++ split; intros Hc; rewrite !KS.
              ** replace (i - 1 =? j' - 1) with false by (symmetry; apply Nat.eqb_neq; lia).
                 rewrite Nat.eqb_refl.
                 destruct (Nat.eqb_spec (2 * i - 1) (j' - 1)).
                 --- apply less_asym, Hlt.
                 --- destruct (Nat.eqb_spec (2 * i - 1) (i - 1)); [lia|].
                     apply (Hdom (2 * i)); [auto|lia].
              ** replace (i - 1 =? j' - 1) with false by (symmetry; apply Nat.eqb_neq; lia).
                 rewrite Nat.eqb_refl.
                 destruct (Nat.eqb_spec (2 * i) (j' - 1)).
                 --- apply less_asym, Hlt.
                 --- destruct (Nat.eqb_spec (2 * i) (i - 1)); [lia|].
                     replace (2 * i) with (2 * i + 1 - 1) by lia.
                     apply (Hdom (2 * i + 1)); [auto|lia].
           ++ destruct (Hheap k Hk Hki) as [H1 H2].
              assert (Hkk : np.key v (np.INTP_SWAP L (i - 1) (j' - 1)) (k - 1)
                            = np.key v L (k - 1)).
              { rewrite KS. destruct (Nat.eqb_spec (k - 1) (j' - 1)); [lia|].
                destruct (Nat.eqb_spec (k - 1) (i - 1)); [lia|]. symmetry. apply KL. lia. }
              assert (Hchild : forall c, c = 2 * k \/ c = 2 * k + 1 -> c <= n ->
                        np.less (np.key v L (k - 1)) (np.key v L (c - 1)) = false ->
                        np.less (np.key v L (k - 1))
                          (np.key v (np.INTP_SWAP L (i - 1) (j' - 1)) (c - 1)) = false).
              { intros c Hc Hcn Hd. rewrite KS.
                destruct (Nat.eqb_spec (c - 1) (j' - 1)); [lia|].
                destruct (Nat.eqb_spec (c - 1) (i - 1)) as [Hci|Hci].
                - destruct Hpar as [->|(p & Hp & Hip & Hpc)]; [lia|].
                  assert (k = p) by lia. subst p.
                  rewrite <- (KL (j' - 1)) by lia. apply (Hpc j'); lia.
                - rewrite <- (KL (c - 1)) by lia. exact Hd. }
              split; intros Hc; rewrite Hkk.
              ** apply (Hchild (2 * k)); [auto|lia|apply H1, Hc].
              ** replace (2 * k) with (2 * k + 1 - 1) by lia.
                 apply (Hchild (2 * k + 1)); [auto|lia|].
                 replace (2 * k + 1 - 1) with (2 * k) by lia. apply H2, Hc.
        -- right. exists i. split; [lia|]. split; [lia|].
           intros c Hc Hcn. rewrite Hsh, !KS.
           replace (i - 1 =? j' - 1) with false by (symmetry; apply Nat.eqb_neq; lia).
           rewrite Nat.eqb_refl.
           destruct (Nat.eqb_spec (c - 1) (j' - 1)); [lia|].
           destruct (Nat.eqb_spec (c - 1) (i - 1)); [lia|].
           destruct (Hheap j') as [H1 H2]; [lia|lia|].
           rewrite !KL in H1, H2 by lia.
           destruct Hc as [->| ->].
           ++ apply H1. lia.
           ++ replace (2 * j' + 1 - 1) with (2 * j') by lia. apply H2. lia.
        -- split; [|exact Hh].
           eapply rearranged_trans; [|exact R]. rewrite Hsh.
           apply rearranged_swap; lia.
      * split; [apply rearranged_refl|].
        intros k Hk. destruct (Nat.eq_dec k i) as [->|Hne]; [|apply Hheap; assumption].
        assert (Hc : forall c, c = 2 * i \/ c = 2 * i + 1 -> c <= n ->
                  np.less (np.key v L (i - 1)) (np.key v L (c - 1)) = false).
        { intros c Hc Hcn. rewrite KLi, KL by lia.
          apply less_trans with (b := np.key v a (j' - 1)); [apply Hdom; assumption|exact Hlt]. }
        split; intros Hcn.
        -- apply (Hc (2 * i)); [auto|lia].
        -- replace (2 * i) with (2 * i + 1 - 1) by lia. apply (Hc (2 * i + 1)); [auto|lia].
Qed.

Lemma heapify_spec (n : nat) :
  forall l a,
    2 * l <= n -> n <= length a ->
    (forall k, l + 1 <= k -> heap_ok v a n k) ->
    rearranged a (np.heapify v a l n) 0 (n - 1) /\
    forall k, 1 <= k -> heap_ok v (np.heapify v a l n) n k.
Proof.
  induction l as [|l IH]; intros a Hl Hn Hh.
  - simpl. split; [apply rearranged_refl|]. intros k Hk. apply Hh. lia.
  - cbn [np.heapify].
    assert (E : np.put a (S l - 1) (np.get a (S l - 1)) = a) by (apply put_get; lia).
    destruct (sift_spec n (S l) (length a) a (np.get a (S l - 1)) (S l) (S l + S l))
      as [R Hh']; try lia.
    + rewrite E. intros k Hk Hne. apply Hh. lia.
    + rewrite E in R.
      destruct (IH (np.sift (length a) v a (np.get a (S l - 1)) (S l) (S l + S l) n))
        as [R' Hh'']; try lia.
      * rewrite (rearranged_length _ _ _ _ R). exact Hn.
      * intros k Hk. apply Hh'. lia.
      * split; [|exact Hh''].
        eapply rearranged_trans; [|exact R'].
        eapply rearranged_widen; [| |exact R]; lia.
Qed.

(** The root of a heap is not below any of its nodes. *)
Lemma heap_root (a : list nat) (n : nat) :
  (forall k, 1 <= k -> heap_ok v a n k) ->
  forall k, 1 <= k <= n -> np.less (np.key v a 0) (np.key v a (k - 1)) = false.
Proof.
  intros Hh k. induction k as [k IH] using (well_founded_induction lt_wf). intros Hk.
  destruct (Nat.eq_dec k 1) as [->|Hne]; [apply less_irrefl|].
  set (p := Nat.div2 k).
  assert (Hp : k = 2 * p \/ k = 2 * p + 1).
  { unfold p. pose proof (Nat.div2_odd k) as Ho.
    destruct (Nat.odd k); simpl Nat.b2n in Ho; lia. }
  clearbody p. assert (Hp1 : 1 <= p < k) by lia.
  apply less_trans with (b := np.key v a (p - 1)).
  - destruct (Hh p) as [H1 H2]; [lia|]. destruct Hp as [->| ->].
    + apply H1. lia.
    + replace (2 * p + 1 - 1) with (2 * p) by lia. apply H2. lia.
  - apply IH; lia.
Qed.

Lemma extract_spec :
  forall fuel a n,
    n <= length a -> n <= fuel + 1 ->
    (forall k, 1 <= k -> heap_ok v a n k) ->
    sorted_on v a n (length a - 1) ->
    (forall i j, i < n -> n <= j < length a ->
       np.less (np.key v a j) (np.key v a i) = false) ->
    rearranged a (np.extract fuel v a n) 0 (n - 1) /\
    sorted_on v (np.extract fuel v a n) 0 (length a - 1).
Proof.
  assert (Hdone : forall a n, n <= 1 ->
            sorted_on v a n (length a - 1) ->
            (forall i j, i < n -> n <= j < length a ->
               np.less (np.key v a j) (np.key v a i) = false) ->
            sorted_on v a 0 (length a - 1)).
  { intros a n Hn Hs Hc i j Hi Hij Hj.
    destruct (Nat.lt_ge_cases i n); [apply Hc; lia|apply Hs; lia]. }
  induction fuel as [|fuel IH]; intros a n Hn Hf Hh Hs Hc.
  - simpl. split; [apply rearranged_refl|]. apply (Hdone a n); [lia|assumption|assumption].
  - simpl. destruct (Nat.ltb_spec 1 n) as [H1|H1];
      [|split; [apply rearranged_refl|apply (Hdone a n); [lia|assumption|assumption]]].
    set (tmp := np.get a (n - 1)).
    set (a' := np.put a (n - 1) (np.get a 0)).
    assert (La' : length a' = length a) by (apply put_length; lia).
    assert (Hsh : np.put a' (1 - 1) tmp = np.INTP_SWAP a (n - 1) 0).
    { unfold a', tmp. change (1 - 1) with 0. rewrite put_shift by lia.
      rewrite put_get by lia. reflexivity. }
    assert (KS : forall x, np.key v (np.INTP_SWAP a (n - 1) 0) x
                 = if x =? 0 then np.key v a (n - 1)
                   else if x =? n - 1 then np.key v a 0 else np.key v a x)
      by (intros x; apply key_swap; lia).
    destruct (sift_spec (n - 1) 1 (length a') a' tmp 1 2) as [R Hh']; try lia.
    + rewrite Hsh. intros k Hk Hne.
      destruct (Hh k Hk) as [G1 G2]. split; intros Hcn; rewrite !KS.
      * destruct (Nat.eqb_spec (k - 1) 0); [lia|].
        destruct (Nat.eqb_spec (k - 1) (n - 1)); [lia|].
        destruct (Nat.eqb_spec (2 * k - 1) 0); [lia|].
        destruct (Nat.eqb_spec (2 * k - 1) (n - 1)); [lia|]. apply G1. lia.
      * destruct (Nat.eqb_spec (k - 1) 0); [lia|].
        destruct (Nat.eqb_spec (k - 1) (n - 1)); [lia|].
        destruct (Nat.eqb_spec (2 * k) 0); [lia|].
        destruct (Nat.eqb_spec (2 * k) (n - 1)); [lia|]. apply G2. lia.
    + rewrite Hsh in R. rewrite La' in *.
      set (a1 := np.sift (length a) v a' tmp 1 2 (n - 1)) in *.
      assert (L1 : length a1 = length a).
      { rewrite (rearranged_length _ _ _ _ R). apply swap_length; lia. }
      assert (Hout : forall k, n - 1 <= k -> np.key v a1 k
                       = if k =? n - 1 then np.key v a 0 else np.key v a k).
      { intros k Hk. destruct R as (_ & O & _). unfold np.key at 1. rewrite O by lia.
        fold (np.key v (np.INTP_SWAP a (n - 1) 0) k). rewrite KS.
        destruct (Nat.eqb_spec k 0); [lia|]. reflexivity. }
      assert (Hin : forall k, k < n - 1 -> exists k', k' < n /\ np.key v a1 k = np.key v a k').
      { intros k Hk. destruct R as (_ & _ & I). destruct (I k) as (k' & Hk' & E); [lia|].
        unfold np.key at 1. rewrite E. fold (np.key v (np.INTP_SWAP a (n - 1) 0) k').
        rewrite KS. destruct (Nat.eqb_spec k' 0); [exists (n - 1); split; [lia|reflexivity]|].
        destruct (Nat.eqb_spec k' (n - 1)); [lia|]. exists k'. split; [lia|reflexivity]. }
      pose proof (heap_root a n Hh) as Hroot.
      destruct (IH a1 (n - 1)) as [R' Hs']; try lia.
      * exact Hh'.
      * rewrite L1. intros i j Hi Hij Hj. rewrite !Hout by lia.
        destruct (Nat.eqb_spec j (n - 1)); [lia|].
        destruct (Nat.eqb_spec i (n - 1)).
        -- apply Hc; lia.
        -- apply Hs; lia.
      * rewrite L1. intros i j Hi Hj.
        destruct (Hin i Hi) as (i' & Hi' & ->). rewrite Hout by lia.
        destruct (Nat.eqb_spec j (n - 1)).
        -- replace i' with (S i' - 1) by lia. apply Hroot. lia.
        -- apply Hc; lia.
      * rewrite L1 in Hs'. split; [|exact Hs'].
        eapply rearranged_trans; [apply (rearranged_swap a 0 (n - 1) (n - 1) 0); lia|].
        eapply rearranged_trans; [eapply rearranged_widen; [| |exact R]; lia|].
        eapply rearranged_widen; [| |exact R']; lia.
Qed.

Lemma get_splice (t e : list nat) (pl n k : nat) :
  pl + n <= length t -> length e = n ->
  np.get (firstn pl t ++ e ++ skipn (pl + n) t) k
  = if (pl <=? k) && (k <? pl + n) then np.get e (k - pl) else np.get t k.
Proof.
  intros Hn He. unfold np.get.
  assert (L : length (firstn pl t) = pl) by (rewrite length_firstn; lia).
  destruct (Nat.leb_spec pl k) as [H1|H1]; simpl.
  - rewrite app_nth2 by lia. rewrite L.
    destruct (Nat.ltb_spec k (pl + n)) as [H2|H2].
    + apply app_nth1. lia.
    + rewrite app_nth2 by lia. rewrite nth_skipn, He. f_equal. lia.
  - rewrite app_nth1 by lia. rewrite nth_firstn.
    destruct (Nat.ltb_spec k pl); [reflexivity|lia].
Qed.

Lemma slice_splice (t : list nat) (pl n : nat) :
  firstn pl t ++ firstn n (skipn pl t) ++ skipn (pl + n) t = t.
Proof.
  rewrite <- (firstn_skipn pl t) at 4. f_equal.
  rewrite <- (firstn_skipn n (skipn pl t)) at 2. f_equal.
  rewrite skipn_skipn. f_equal. lia.
Qed.

Lemma get_slice (t : list nat) (pl n k : nat) :
  k < n -> np.get (firstn n (skipn pl t)) k = np.get t (pl + k).
Proof.
  intros H. unfold np.get. rewrite nth_firstn.
  destruct (Nat.ltb_spec k n); [|lia]. apply nth_skipn.
Qed.

Lemma aheapsort_spec (t : list nat) (pl pr : nat) :
  pl <= pr -> pr < length t ->
  rearranged t (np.aheapsort v t pl (pr - pl + 1)) pl pr /\
  sorted_on v (np.aheapsort v t pl (pr - pl + 1)) pl pr.
Proof.
  intros H1 H2. unfold np.aheapsort.
  set (n := pr - pl + 1).
  set (a := firstn n (skipn pl t)).
  assert (La : length a = n)
    by (unfold a; rewrite length_firstn, length_skipn; lia).
  assert (Hd : 2 * Nat.div2 n <= n < 2 * Nat.div2 n + 2).
  { pose proof (Nat.div2_odd n) as Ho. destruct (Nat.odd n); simpl Nat.b2n in Ho; lia. }
  destruct (heapify_spec n (Nat.div2 n) a) as [R Hh]; try lia.
  { intros k Hk. split; intros; lia. }
  set (h := np.heapify v a (Nat.div2 n) n) in *.
  assert (Lh : length h = n) by (rewrite (rearranged_length _ _ _ _ R); exact La).
  destruct (extract_spec n h n) as [R' Hs]; try lia.
  { exact Hh. }
  { intros i j Hi Hij Hj. lia. }
  set (e := np.extract n v h n) in *.
  assert (Le : length e = n) by (rewrite (rearranged_length _ _ _ _ R'); exact Lh).
  assert (Rae : rearranged a e 0 (n - 1)) by (eapply rearranged_trans; eassumption).
  rewrite Lh in Hs.
  assert (G : forall k, np.get (firstn pl t ++ e ++ skipn (pl + n) t) k
              = if (pl <=? k) && (k <? pl + n) then np.get e (k - pl) else np.get t k)
    by (intros k; apply get_splice; lia).
  split; [split; [|split]|].
  - apply (Permutation_trans (l' := firstn pl t ++ a ++ skipn (pl + n) t)).
    + apply Permutation_app_head, Permutation_app_tail, Rae.
    + unfold a. rewrite slice_splice. apply Permutation_refl.
  - intros k Hk. rewrite G.
    destruct (Nat.leb_spec pl k); simpl; [|reflexivity].
    destruct (Nat.ltb_spec k (pl + n)); [lia|reflexivity].
  - intros k Hk. rewrite G.
    destruct (Nat.leb_spec pl k); [|lia]. destruct (Nat.ltb_spec k (pl + n)); [|lia]. simpl.
    destruct Rae as (_ & _ & I). destruct (I (k - pl)) as (k' & Hk' & E); [lia|].
    exists (pl + k'). split; [lia|]. rewrite E. apply get_slice. lia.
  - intros i j Hi Hij Hj. unfold np.key. rewrite !G.
    destruct (Nat.leb_spec pl i); [|lia]. destruct (Nat.ltb_spec i (pl + n)); [|lia].
    destruct (Nat.leb_spec pl j); [|lia]. destruct (Nat.ltb_spec j (pl + n)); [|lia]. simpl.
    apply Hs; lia.
Qed.

(** *** The outer loop *)

Lemma ranges_ok_tail (n : nat) (r : nat * nat) (rs : list (nat * nat)) :
  ranges_ok n (r :: rs) -> ranges_ok n rs.
Proof. destruct r as [a b]. simpl. tauto. Qed.

(** A pass that rearranges the current range and leaves it in order,
    except inside the ranges [sub] it splits into. *)
Lemma sorted_apart_refine (t t' : list nat) (pl pr : nat) (sub rest : list (nat * nat)) :
  ranges_ok (length t) ((pl, pr) :: rest) ->
  sorted_apart v t ((pl, pr) :: rest) ->
  rearranged t t' pl pr ->
  (forall i j, pl <= i -> i < j -> j <= pr ->
     (forall a b, In (a, b) sub -> ~ (a <= i /\ j <= b)) ->
     np.less (np.key v t' j) (np.key v t' i) = false) ->
  sorted_apart v t' (sub ++ rest).
Proof.
  intros (Hab & Hbn & Hdis & _) Hs R Hin i j Hij Hj Hsep.
  rewrite (rearranged_length _ _ _ _ R) in Hj.
  destruct R as (_ & O & I).
  assert (Hrest : forall a b, In (a, b) rest -> ~ (a <= i /\ j <= b))
    by (intros a b Hi; apply Hsep, in_or_app; right; exact Hi).
  assert (Hsub : forall a b, In (a, b) sub -> ~ (a <= i /\ j <= b))
    by (intros a b Hi; apply Hsep, in_or_app; left; exact Hi).
  destruct (Nat.lt_ge_cases i pl) as [Hi|Hi].
  - unfold np.key. rewrite (O i) by lia. destruct (Nat.lt_ge_cases pr j) as [Hj'|Hj'].
    + rewrite (O j) by lia. apply (Hs i j); [lia|lia|].
      intros a b [E|Hr]; [injection E as <- <-; lia|apply Hrest, Hr].
    + destruct (Nat.lt_ge_cases j pl) as [Hj''|Hj''].
      * rewrite (O j) by lia. apply (Hs i j); [lia|lia|].
        intros a b [E|Hr]; [injection E as <- <-; lia|apply Hrest, Hr].
      * destruct (I j) as (j' & Hj1 & ->); [lia|]. apply (Hs i j'); [lia|lia|].
        intros a b [E|Hr]; [injection E as <- <-; lia|].
        destruct (Hdis a b Hr); lia.
  - destruct (Nat.lt_ge_cases pr i) as [Hi'|Hi'].
    + unfold np.key. rewrite (O i), (O j) by lia. apply (Hs i j); [lia|lia|].
      intros a b [E|Hr]; [injection E as <- <-; lia|apply Hrest, Hr].
    + destruct (Nat.lt_ge_cases pr j) as [Hj'|Hj'].
      * unfold np.key. rewrite (O j) by lia.
        destruct (I i) as (i' & Hi1 & ->); [lia|]. apply (Hs i' j); [lia|lia|].
        intros a b [E|Hr]; [injection E as <- <-; lia|].
        destruct (Hdis a b Hr); lia.
      * apply Hin; try lia. exact Hsub.
Qed.

Lemma sorted_apart_nil (t : list nat) :
  sorted_apart v t [] -> sorted_on v t 0 (length t - 1).
Proof. intros H i j Hi Hij Hj. apply H; [lia|lia|]. intros a b []. Qed.

Lemma aquicksort_loop_spec :
  forall fuel t pl pr cdepth stack at_top,
    ranges_ok (length t) ((pl, pr) :: map fst stack) ->
    sorted_apart v t ((pl, pr) :: map fst stack) ->
    budget ((pl, pr) :: map fst stack) <= fuel ->
    Permutation (np.aquicksort_loop fuel v t pl pr cdepth stack at_top) t /\
    sorted_on v (np.aquicksort_loop fuel v t pl pr cdepth stack at_top) 0 (length t - 1).
Proof.
  induction fuel as [|fuel IH]; intros t pl pr cdepth stack at_top Hok Hs Hb;
    [simpl in Hb; lia|].
  assert (Hleaf : forall t',
            rearranged t t' pl pr -> sorted_on v t' pl pr ->
            Permutation
              match stack with
              | [] => t'
              | (pl', pr', d') :: stack' =>
                  np.aquicksort_loop fuel v t' pl' pr' d' stack' true
              end t /\
            sorted_on v
              match stack with
              | [] => t'
              | (pl', pr', d') :: stack' =>
                  np.aquicksort_loop fuel v t' pl' pr' d' stack' true
              end 0 (length t - 1)).
  { intros t' R Hso.
    pose proof (rearranged_length _ _ _ _ R) as Len.
    assert (Hs' : sorted_apart v t' (map fst stack)).
    { apply (sorted_apart_refine t t' pl pr [] (map fst stack) Hok Hs R).
      intros i j Hi Hij Hj _. apply Hso; lia. }
    destruct stack as [|[[pl' pr'] d'] stack'].
    - split; [apply R|]. rewrite <- Len. apply sorted_apart_nil, Hs'.
    - simpl map in *.
      destruct (IH t' pl' pr' d' stack' true) as [P Q].
      + rewrite Len. eapply ranges_ok_tail, Hok.
      + exact Hs'.
      + simpl in Hb. simpl. lia.
      + split; [eapply Permutation_trans; [exact P|apply R]|].
        rewrite <- Len. exact Q. }
  destruct Hok as (Hab & Hbn & Hdis & Hok').
  assert (Hok : ranges_ok (length t) ((pl, pr) :: map fst stack))
    by (simpl; auto).
  cbn [np.aquicksort_loop].
  destruct (at_top && (cdepth <? 0)%Z).
  - apply Hleaf; apply aheapsort_spec; lia.
  - destruct (Nat.ltb_spec np.SMALL_QUICKSORT (pr - pl)) as [Hbig|Hsmall].
    + unfold np.SMALL_QUICKSORT in Hbig.
      destruct (np.partition v t pl pr) as [t' pi] eqn:Ep.
      destruct (partition_spec t pl pr t' pi) as (R & Hpi & Hlo & Hhi); try lia; try exact Ep.
      pose proof (rearranged_length _ _ _ _ R) as Len.
      assert (Hsplit : forall i j, pl <= i -> i < j -> j <= pr ->
                (forall a b, In (a, b) [(pl, pi - 1); (pi + 1, pr)] -> ~ (a <= i /\ j <= b)) ->
                np.less (np.key v t' j) (np.key v t' i) = false).
      { intros i j Hi Hij Hj Hsep.
        destruct (Nat.lt_trichotomy i pi) as [Hip|[->|Hip]].
        - destruct (Nat.lt_trichotomy j pi) as [Hjp|[->|Hjp]].
          + exfalso. apply (Hsep pl (pi - 1)); [simpl; auto|lia].
          + apply Hlo. lia.
          + apply less_trans with (b := np.key v t' pi); [apply Hlo; lia|apply Hhi; lia].
        - apply Hhi. lia.
        - exfalso. apply (Hsep (pi + 1) pr); [simpl; auto|lia]. }
      assert (Hsplit' : forall i j, pl <= i -> i < j -> j <= pr ->
                (forall a b, In (a, b) [(pi + 1, pr); (pl, pi - 1)] -> ~ (a <= i /\ j <= b)) ->
                np.less (np.key v t' j) (np.key v t' i) = false).
      { intros i j Hi Hij Hj Hsep. apply Hsplit; try assumption.
        intros a b [E|[E|[]]]; apply Hsep; simpl; auto. }
      destruct (Nat.ltb_spec (pi - pl) (pr - pi)) as [Hside|Hside].
      * destruct (IH t' pl (pi - 1) (cdepth - 1)%Z
                    ((pi + 1, pr, (cdepth - 1)%Z) :: stack) false) as [P Q].
        -- rewrite Len. simpl. repeat split; try lia.
           ++ intros a' b' [E|Hr]; [injection E as <- <-; lia|].
              destruct (Hdis a' b' Hr); lia.
           ++ intros a' b' Hr. destruct (Hdis a' b' Hr); lia.
           ++ exact Hok'.
        -- apply (sorted_apart_refine t t' pl pr [(pl, pi - 1); (pi + 1, pr)]
                    (map fst stack) Hok Hs R Hsplit).
        -- simpl in Hb. simpl. lia.
        -- split; [eapply Permutation_trans; [exact P|apply R]|]. rewrite <- Len. exact Q.
      * destruct (IH t' (pi + 1) pr (cdepth - 1)%Z
                    ((pl, pi - 1, (cdepth - 1)%Z) :: stack) false) as [P Q].
        -- rewrite Len. simpl. repeat split; try lia.
           ++ intros a' b' [E|Hr]; [injection E as <- <-; lia|].
              destruct (Hdis a' b' Hr); lia.
           ++ intros a' b' Hr. destruct (Hdis a' b' Hr); lia.
           ++ exact Hok'.
        -- apply (sorted_apart_refine t t' pl pr [(pi + 1, pr); (pl, pi - 1)]
                    (map fst stack) Hok Hs R Hsplit').
        -- simpl in Hb. simpl. lia.
        -- split; [eapply Permutation_trans; [exact P|apply R]|]. rewrite <- Len. exact Q.
    + apply Hleaf; apply insertion_sort_spec; try lia;
        intros i j Hi Hij Hj; lia.
Qed.

(** [argsort] of numpy's quicksort kernel: every position once, and no
    entry below an earlier one in the order of the kernel (NaN last). *)
Lemma aquicksort_spec :
  Permutation (np.aquicksort v) (seq 0 (length v)) /\
  sorted_on v (np.aquicksort v) 0 (length v - 1).
Proof.
  unfold np.aquicksort.
  destruct (Nat.eq_dec (length v) 0) as [E|E].
  - rewrite E. simpl. split; [constructor|]. intros i j Hi Hij Hj. lia.
  - destruct (aquicksort_loop_spec (S (length v + length v)) (seq 0 (length v)) 0
                (length v - 1) (2 * Z.of_nat (Nat.log2 (length v)))%Z [] true) as [P Q].
    + rewrite length_seq. simpl. repeat split; try lia.
    + intros i j Hij Hj Hsep. rewrite length_seq in Hj.
      exfalso. apply (Hsep 0 (length v - 1)); [simpl; auto|lia].
    + simpl. lia.
    + rewrite length_seq in Q. split; assumption.
Qed.

End Kernel.

(** On every array, the kernel keeps the contract [nargsort] relies on. *)
Lemma aquicksort_sorts (v : vec) : sorts np.aquicksort v.
Proof.
  destruct (aquicksort_spec v) as [P Q]. split; [exact P|].
  apply (StronglySorted_nth _ _ (nth 0 v nan)). intros i j Hij Hj.
  rewrite length_map, (Permutation_length P), length_seq in Hj.
  rewrite !(map_nth (fun i => nth i v nan)).
  apply (Q i j); lia.
Qed.

(** ** pandas: [take], [nargsort], [sort_values] *)

Lemma take_map {A : Type} (a : list A) (d : A) (indexer : list nat) :
  (forall i, In i indexer -> i < length a) ->
  pd.take a indexer = Ok (map (fun i => nth i a d) indexer).
Proof.
  induction indexer as [|i indexer IH]; intros H; simpl; [reflexivity|].
  rewrite (nth_error_nth' a d) by (apply H; left; reflexivity).
  rewrite IH by (intros j Hj; apply H; right; exact Hj). reflexivity.
Qed.

Lemma take_In {A : Type} (a : list A) (indexer : list nat) (xs : list A) :
  pd.take a indexer = Ok xs -> forall x, In x xs -> In x a.
Proof.
  revert xs. induction indexer as [|i indexer IH]; intros xs H; simpl in H.
  - injection H as <-. intros x [].
  - destruct (nth_error a i) as [y|] eqn:E; [|discriminate].
    destruct (pd.take a indexer) as [ys|] eqn:E'; simpl in H; [|discriminate].
    injection H as <-. intros x [<-|Hx].
    + eapply nth_error_In, E.
    + eapply IH; eauto.
Qed.

Lemma sort_values_In {A : Type} (argsort : vec -> list nat) (by_ : A -> float)
    (ascending : bool) (df sorted : list A) :
  pd.sort_values argsort by_ ascending df = Ok sorted ->
  forall x, In x sorted -> In x df.
Proof.
  unfold pd.sort_values. intros H.
  destruct (pd.nargsort argsort (map by_ df) ascending) as [indexer|]; simpl in H; [|discriminate].
  eapply take_In, H.
Qed.

Lemma select_map {A B : Type} (f : A -> B) (mask : list bool) (a : list A) :
  pd.select mask (map f a) = map f (pd.select mask a).
Proof.
  revert a. induction mask as [|b mask IH]; intros [|x a]; simpl; try reflexivity.
  destruct b; simpl; rewrite IH; reflexivity.
Qed.

Lemma select_filter {A : Type} (p : A -> bool) (a : list A) :
  pd.select (map p a) a = filter p a.
Proof.
  induction a as [|x a IH]; simpl; [reflexivity|]. rewrite IH. reflexivity.
Qed.

(** A descending [nargsort] over a kernel that sorts its input: every
    position once, in descending order of the entries, NaN last. *)
Lemma nargsort_descending (argsort : vec -> list nat) (items : vec) :
  sorts argsort (pd.non_nans items false) ->
  exists indexer,
    pd.nargsort argsort items false = Ok indexer /\
    Permutation indexer (seq 0 (length items)) /\
    StronglySorted descending (map (fun i => nth i items nan) indexer).
Proof.
  set (g := fun i => nth i items nan).
  set (q := fun i => is_nan (g i)).
  set (idx := seq 0 (length items)).
  set (nnidx := filter (fun i => negb (q i)) idx).
  set (nanidx := filter q idx).
  assert (Hitems : items = map g idx) by (symmetry; apply map_nth_seq).
  assert (Hmask : map is_nan items = map q idx)
    by (rewrite Hitems at 1; rewrite map_map; reflexivity).
  assert (Hnn : pd.select (map negb (map is_nan items)) idx = nnidx)
    by (rewrite Hmask, map_map; apply (select_filter (fun i => negb (q i)))).
  assert (Hnan : pd.select (map is_nan items) idx = nanidx)
    by (rewrite Hmask; apply select_filter).
  assert (HK : pd.non_nans items false = map g (rev nnidx)).
  { unfold pd.non_nans. rewrite Hitems at 2. rewrite select_map, Hnn, map_rev. reflexivity. }
  rewrite HK. intros [Hperm Hsorted]. rewrite length_map in Hperm.
  set (perm := argsort (map g (rev nnidx))) in *.
  pose proof (Permutation_seq_lt _ _ Hperm) as Hlt.
  unfold pd.nargsort. fold idx. rewrite Hnn, Hnan, HK. fold perm.
  rewrite (take_map (rev nnidx) 0 perm Hlt). simpl.
  eexists. split; [reflexivity|]. split.
  - apply Permutation_trans with (nnidx ++ nanidx); [|apply filter_partition].
    apply Permutation_app_tail.
    eapply Permutation_trans; [apply Permutation_sym, Permutation_rev|].
    eapply Permutation_trans; [apply Permutation_map_nth, Hperm|].
    apply Permutation_sym, Permutation_rev.
  - rewrite map_app, map_rev, map_map.
    assert (Hkeys : map (fun i => nth i (map g (rev nnidx)) nan) perm
                    = map (fun x => g (nth x (rev nnidx) 0)) perm).
    { apply map_ext_in. intros j Hj.
      rewrite (nth_indep _ nan (g 0)) by (rewrite length_map; apply Hlt, Hj).
      apply map_nth. }
    rewrite Hkeys in Hsorted.
    assert (Hnum : forall x, In x (map (fun x => g (nth x (rev nnidx) 0)) perm) ->
                     is_nan x = false).
    { intros x Hx. apply in_map_iff in Hx. destruct Hx as (j & <- & Hj).
      assert (Hin : In (nth j (rev nnidx) 0) nnidx)
        by (apply in_rev, nth_In, Hlt, Hj).
      apply filter_In in Hin. apply negb_true_iff. exact (proj2 Hin). }
    apply StronglySorted_app.
    + apply StronglySorted_rev.
      apply (StronglySorted_weaken (fun a b => np.less b a = false)); [|exact Hsorted].
      intros x y Hx Hy Hless. right.
      apply IEEE.not_above; [apply Hnum, Hx|apply Hnum, Hy|].
      unfold np.less in Hless. apply orb_false_iff in Hless. exact (proj1 Hless).
    + apply StronglySorted_all. intros x y _ Hy. left.
      apply in_map_iff in Hy. destruct Hy as (i & <- & Hi).
      apply filter_In in Hi. exact (proj2 Hi).
    + intros x y _ Hy. left.
      apply in_map_iff in Hy. destruct Hy as (i & <- & Hi).
      apply filter_In in Hi. exact (proj2 Hi).
Qed.

(** ** Cell 4: the frame and its summary *)

Lemma DataFrame_columns (feature_names : list string) (coefficients : vec) :
  length feature_names = length coefficients ->
  exists df,
    DataFrame feature_names coefficients = Ok df /\
    length df = length coefficients /\
    map Abs_Coefficient df = map PrimFloat.abs coefficients /\
    map Feature df = feature_names /\
    map Coefficient df = coefficients.
Proof.
  intros H. unfold DataFrame. rewrite H, Nat.eqb_refl. eexists. split; [reflexivity|].
  revert coefficients H. induction feature_names as [|f fs IH]; intros [|c cs] H;
    simpl in *; try discriminate; [repeat split|].
  destruct (IH cs) as (L & A & F & C); [lia|].
  rewrite L, A, F, C. repeat split.
Qed.

(** The ranking of the frame by any kernel that sorts the array
    [nargsort] hands to it. *)
Lemma feature_importance_by_kernel
    (quicksort : vec -> list nat) (feature_names : list string) (coefficients : vec) :
  length feature_names = length coefficients ->
  sorts quicksort (pd.non_nans (map PrimFloat.abs coefficients) false) ->
  exists df ranking,
    DataFrame feature_names coefficients = Ok df /\
    map Feature df = feature_names /\
    map Coefficient df = coefficients /\
    map Abs_Coefficient df = map PrimFloat.abs coefficients /\
    feature_importance quicksort feature_names coefficients = Ok ranking /\
    Permutation ranking df /\
    StronglySorted
      (fun r r' => descending (Abs_Coefficient r) (Abs_Coefficient r')) ranking.
Proof.
  intros Hlen Hk.
  destruct (DataFrame_columns _ _ Hlen) as (df & Hdf & L & A & F & C).
  rewrite <- A in Hk.
  destruct (nargsort_descending _ _ Hk) as (indexer & Hidx & Hperm & Hsorted).
  rewrite length_map in Hperm.
  set (d := {| Feature := EmptyString; Coefficient := nan; Abs_Coefficient := nan |}).
  exists df, (map (fun i => nth i df d) indexer).
  split; [exact Hdf|]. split; [exact F|]. split; [exact C|]. split; [exact A|].
  split; [|split].
  - unfold feature_importance, pd.sort_values. rewrite Hdf. simpl. rewrite Hidx. simpl.
    apply take_map. apply (Permutation_seq_lt _ _ Hperm).
  - apply Permutation_map_nth, Hperm.
  - apply (StronglySorted_map Abs_Coefficient descending).
    rewrite map_map.
    erewrite map_ext; [exact Hsorted|].
    intros i. simpl. symmetry. apply (map_nth Abs_Coefficient df d).
Qed.

Lemma DataFrame_In (feature_names : list string) (coefficients : vec)
    (df : list importance) :
  DataFrame feature_names coefficients = Ok df ->
  forall r, In r df -> In (Coefficient r) coefficients.
Proof.
  unfold DataFrame. destruct (length feature_names =? length coefficients); [|discriminate].
  intros H. injection H as <-. clear.
  revert coefficients. induction feature_names as [|f fs IH]; intros [|c cs] r; simpl; try tauto.
  intros [<-|Hr]; simpl; [auto|]. right. exact (IH cs r Hr).
Qed.

Lemma iloc_0_nonempty {A : Type} (df : list A) :
  (0 <? length df) = true -> exists x, pd.iloc df 0 = Ok x.
Proof.
  destruct df as [|x rest]; simpl; [discriminate|]. intros _. exists x. reflexivity.
Qed.

(** The summary never raises: each [iloc[0]] sits under its [len(...) > 0]. *)
Lemma model_summary_total (feature_names : list string) (coefficients : vec)
    (ranking : list importance) :
  exists lines, model_summary feature_names coefficients ranking = Ok lines.
Proof.
  unfold model_summary.
  destruct (0 <? length ranking) eqn:E; [|eauto].
  destruct (iloc_0_nonempty _ E) as (top & ->). simpl.
  destruct (0 <? length (negative_features ranking)) eqn:E'; [|eauto].
  destruct (iloc_0_nonempty _ E') as (neg & ->). simpl. eauto.
Qed.

(** The "Strongest positive predictor" line carries the first row of the
    ranking, whatever the sign of its coefficient. *)
Lemma strongest_positive_is_first_row (feature_names : list string) (coefficients : vec)
    (top : importance) (rest : list importance) :
  exists lines,
    model_summary feature_names coefficients (top :: rest) = Ok lines /\
    In (StrongestPositive (Feature top) (Coefficient top)) lines.
Proof.
  unfold model_summary.
  generalize (negative_features (top :: rest)). intros negatives.
  change (pd.iloc (top :: rest) 0) with (@Ok importance top).
  change (0 <? length (top :: rest)) with true. cbv iota. simpl bind.
  destruct (0 <? length negatives) eqn:E.
  - destruct (iloc_0_nonempty _ E) as (neg & ->). simpl.
    eexists. split; [reflexivity|]. simpl. tauto.
  - eexists. split; [reflexivity|]. simpl. tauto.
Qed.

(** ** Cell 3: the metric bundle *)

Lemma sum_zeros (n : nat) : np.sum (repeat 0%float n) = 0%float.
Proof.
  unfold np.sum. induction n as [|n IH]; simpl; [reflexivity|].
  change (0 + 0)%float with 0%float. exact IH.
Qed.

Lemma mean_zeros (n : nat) :
  1 <= n -> (Z.of_nat n < 2 ^ 63)%Z -> np.mean (repeat 0%float n) = 0%float.
Proof.
  intros H1 H2. unfold np.mean. rewrite sum_zeros, repeat_length.
  apply IEEE.zero_div_count; assumption.
Qed.

Lemma perfect_residuals (y_true y_pred : vec) :
  perfect y_true y_pred ->
  length y_pred = length y_true /\
  forallb is_finite y_true = true /\ forallb is_finite y_pred = true /\
  map np.square (zip_with PrimFloat.sub y_true y_pred) = repeat 0%float (length y_true) /\
  map PrimFloat.abs (zip_with PrimFloat.sub y_pred y_true) = repeat 0%float (length y_true).
Proof.
  induction 1 as [|t p ts ps [Hf Heq] _ IH]; simpl.
  - repeat split.
  - destruct IH as (L & F1 & F2 & S1 & S2).
    destruct (IEEE.sub_of_equal t p Hf Heq) as (Hp & Z1 & Z2).
    rewrite L, Hf, Hp, F1, F2, S1, S2.
    unfold np.square. rewrite (IEEE.square_of_zero _ Z1), (IEEE.abs_of_zero _ Z2).
    repeat split.
Qed.

Lemma sum_with_infinity (l : vec) :
  forall acc, nonneg acc -> Forall nonneg l -> In infinity l ->
    fold_left PrimFloat.add l acc = infinity.
Proof.
  assert (Hinf : forall l', Forall nonneg l' -> fold_left PrimFloat.add l' infinity = infinity).
  { induction l' as [|x l' IH]; intros Hl; simpl; [reflexivity|].
    inversion Hl; subst. rewrite IEEE.add_infinity_l by assumption. apply IH. assumption. }
  induction l as [|x l IH]; intros acc Ha Hl Hin; simpl; [destruct Hin|].
  inversion Hl; subst. destruct Hin as [->|Hin].
  - rewrite IEEE.add_infinity_r by assumption. apply Hinf. assumption.
  - apply IH; [apply IEEE.add_nonneg| |]; assumption.
Qed.

(** The mean that skips NaN is infinite as soon as one absolute value is. *)
Lemma nanmean_with_infinity (a : vec) :
  (forall x, In x a -> exists z, x = PrimFloat.abs z) ->
  In infinity a -> (Z.of_nat (length a) < 2 ^ 63)%Z ->
  pd.nanmean a = infinity.
Proof.
  intros Habs Hin Hbig. unfold pd.nanmean.
  set (count := length (filter (fun x => negb (is_nan x)) a)).
  assert (Hc1 : 1 <= count).
  { assert (In infinity (filter (fun x => negb (is_nan x)) a))
      by (apply filter_In; split; [exact Hin|reflexivity]).
    unfold count. destruct (filter _ a); [contradiction|simpl; lia]. }
  assert (Hc2 : count <= length a) by apply filter_length_le.
  destruct (count =? 0) eqn:E; [apply Nat.eqb_eq in E; lia|].
  unfold np.sum. rewrite sum_with_infinity.
  - apply IEEE.infinity_div_count; lia.
  - reflexivity.
  - apply Forall_forall. intros x Hx. apply in_map_iff in Hx.
    destruct Hx as (y & <- & Hy). destruct (Habs y Hy) as [z ->].
    apply IEEE.filled_abs_nonneg.
  - apply in_map_iff. exists infinity. split; [reflexivity|exact Hin].
Qed.

Lemma errors_have_infinity (y_true : vec) :
  forall (y_pred : vec) (i : nat),
    forallb is_finite y_pred = true ->
    i < length y_true -> i < length y_pred ->
    (nth i y_true 0 =? 0)%float = true -> (nth i y_pred 0 =? 0)%float = false ->
    In infinity (absolute_percentage_errors y_true y_pred).
Proof.
  unfold absolute_percentage_errors.
  induction y_true as [|t ts IH]; intros [|p ps] i Hf Hi Hi' Ht Hp; simpl in *; try lia.
  apply andb_true_iff in Hf. destruct Hf as [Hfp Hfs].
  destruct i as [|i].
  - left. apply IEEE.abs_quotient_by_zero; assumption.
  - right. apply (IH ps i); try assumption; lia.
Qed.

Lemma errors_length (y_true y_pred : vec) :
  length (absolute_percentage_errors y_true y_pred) <= length y_true.
Proof.
  unfold absolute_percentage_errors. rewrite length_map.
  revert y_pred. induction y_true as [|t ts IH]; intros [|p ps]; simpl; try lia.
  specialize (IH ps). lia.
Qed.

(** On inputs that pass the validation of the metrics, the bundle is
    returned: nothing in [calculate_metrics] looks at a zero target. *)
Lemma calculate_metrics_validated (y_true y_pred : vec) :
  sklearn.check_reg_targets y_true y_pred = Ok tt ->
  exists m,
    calculate_metrics y_true y_pred = Ok m /\
    MAPE m = (pd.nanmean (absolute_percentage_errors y_true y_pred) * 100)%float.
Proof.
  intros H. unfold calculate_metrics, sklearn.mean_squared_error,
    sklearn.mean_absolute_error, sklearn.r2_score. rewrite H. simpl.
  destruct (length y_pred <? 2); simpl; [eexists; split; reflexivity|].
  destruct (negb _); [destruct (negb _)|]; simpl; eexists; split; reflexivity.
Qed.

Lemma sum_skips_nan (a : vec) :
  (forall x, In x a -> exists z, x = PrimFloat.abs z) ->
  forall acc, nonneg acc ->
    fold_left PrimFloat.add (map (fun x => if is_nan x then zero else x) a) acc
    = fold_left PrimFloat.add (filter (fun x => negb (is_nan x)) a) acc.
Proof.
  induction a as [|x a IH]; intros Habs acc Hacc; simpl; [reflexivity|].
  assert (Habs' : forall y, In y a -> exists z, y = PrimFloat.abs z)
    by (intros y Hy; apply Habs; right; exact Hy).
  destruct (Habs x (or_introl eq_refl)) as [z ->].
  pose proof (IEEE.filled_abs_nonneg z) as Hx.
  destruct (is_nan (PrimFloat.abs z)); simpl.
  - rewrite IEEE.add_zero_r by exact Hacc. apply IH; assumption.
  - apply IH; [assumption|]. apply IEEE.add_nonneg; assumption.
Qed.

(** [Series.mean] of absolute values: the mean of the entries that are not
    NaN, and NaN when there is none. *)
Lemma nanmean_kept (a : vec) :
  (forall x, In x a -> exists z, x = PrimFloat.abs z) ->
  pd.nanmean a
  = if length (filter (fun x => negb (is_nan x)) a) =? 0 then nan
    else np.mean (filter (fun x => negb (is_nan x)) a).
Proof.
  intros Habs. unfold pd.nanmean, np.mean, np.sum.
  rewrite (sum_skips_nan a Habs zero) by reflexivity. reflexivity.
Qed.

Lemma errors_nth (y_true : vec) :
  forall (y_pred : vec) (i : nat),
    i < length y_true -> i < length y_pred ->
    nth i (absolute_percentage_errors y_true y_pred) 0%float
    = PrimFloat.abs ((nth i y_true 0 - nth i y_pred 0) / nth i y_true 0)%float.
Proof.
  unfold absolute_percentage_errors.
  induction y_true as [|t ts IH]; intros [|p ps] i Hi Hi'; simpl in *; try lia.
  destruct i as [|i]; [reflexivity|]. apply (IH ps i); lia.
Qed.

Lemma errors_length_eq (y_true y_pred : vec) :
  length y_true = length y_pred ->
  length (absolute_percentage_errors y_true y_pred) = length y_true.
Proof.
  unfold absolute_percentage_errors. rewrite length_map.
  revert y_pred. induction y_true as [|t ts IH]; intros [|p ps] H; simpl in *; try lia.
  rewrite (IH ps); lia.
Qed.

Lemma forallb_nth (f : float -> bool) (l : vec) (i : nat) :
  forallb f l = true -> i < length l -> f (nth i l 0%float) = true.
Proof.
  intros H Hi. apply (proj1 (forallb_forall f l) H). apply nth_In, Hi.
Qed.

Lemma three_way_count (l : vec) :
  length (filter (fun c => (0 <? c)%float) l) + length (filter (fun c => (c <? 0)%float) l)
  + length (filter (fun c => (c =? 0)%float || is_nan c) l) = length l.
Proof.
  induction l as [|c l IH]; simpl; [reflexivity|].
  pose proof (IEEE.sign_cases c) as H.
  destruct (0 <? c)%float, (c <? 0)%float, ((c =? 0)%float || is_nan c);
    simpl; try contradiction; lia.
Qed.

(** * The claims *)

(** C1. [best_model_name] is a stable argmax of the test R² over the
    iteration order of [results]: whenever the loop has recorded at least
    one estimator, a name is returned; no estimator has a strictly greater
    test R² than the winner, and no estimator met earlier has an equal one.
    When no test R² is NaN, every earlier estimator is strictly below the
    winner and every later one is below or equal to it. *)
Theorem best_model_name_stable_argmax (results : Py.dict result) :
  results <> [] ->
  exists before name after r,
    Py.keys results = before ++ name :: after /\
    best_model_name results = Ok name /\
    Py.dict_get results name = Ok r /\
    (forall k r', In k (before ++ after) -> Py.dict_get results k = Ok r' ->
       (Test_R2 r <? Test_R2 r')%float = false) /\
    (forall k r', In k before -> Py.dict_get results k = Ok r' ->
       (Test_R2 r' =? Test_R2 r)%float = false) /\
    ((forall k r', Py.dict_get results k = Ok r' -> is_nan (Test_R2 r') = false) ->
     (forall k r', In k before -> Py.dict_get results k = Ok r' ->
        (Test_R2 r' <? Test_R2 r)%float = true) /\
     (forall k r', In k after -> Py.dict_get results k = Ok r' ->
        (Test_R2 r' <=? Test_R2 r)%float = true)).
Proof.
  intros Hne.
  assert (Hk : Py.keys results <> []) by (destruct results; [congruence|discriminate]).
  destruct (max_first_maximal string
              (fun k => r <- Py.dict_get results k ;; Ok (Test_R2 r))
              (test_r2_of results) (Py.keys results) Hk)
    as (before & name & after & E & Hmax & Hgt & Heq).
  - intros k Hin. unfold test_r2_of.
    destruct (dict_get_keys results k Hin) as [v ->]. reflexivity.
  - assert (Hin : In name (Py.keys results))
      by (rewrite E; apply in_or_app; right; left; reflexivity).
    destruct (dict_get_keys results name Hin) as [r Hr].
    assert (Hw : test_r2_of results name = Test_R2 r)
      by (unfold test_r2_of; rewrite Hr; reflexivity).
    assert (Hf : forall k r', Py.dict_get results k = Ok r' ->
                   test_r2_of results k = Test_R2 r')
      by (intros k r' H; unfold test_r2_of; rewrite H; reflexivity).
    exists before, name, after, r.
    repeat split; auto.
    + intros k r' Hi Hg. rewrite <- Hw, <- (Hf k r' Hg). apply Hgt, Hi.
    + intros k r' Hi Hg. rewrite <- Hw, <- (Hf k r' Hg). apply Heq, Hi.
    + intros k r' Hi Hg. apply IEEE.not_above_not_equal; eauto.
      * rewrite <- Hw, <- (Hf k r' Hg). apply Hgt, in_or_app; auto.
      * rewrite <- Hw, <- (Hf k r' Hg). apply Heq, Hi.
    + intros k r' Hi Hg. apply IEEE.not_above; eauto.
      rewrite <- Hw, <- (Hf k r' Hg). apply Hgt, in_or_app; auto.
Qed.

Lemma best_model_name_stable_argmax_witness :
  Toy.printed_results <> [] /\
  best_model_name Toy.printed_results = Ok "Ridge"%string /\
  exists before name after r,
    Py.keys Toy.printed_results = before ++ name :: after /\
    best_model_name Toy.printed_results = Ok name /\
    Py.dict_get Toy.printed_results name = Ok r /\
    (forall k r', In k (before ++ after) -> Py.dict_get Toy.printed_results k = Ok r' ->
       (Test_R2 r <? Test_R2 r')%float = false) /\
    (forall k r', In k before -> Py.dict_get Toy.printed_results k = Ok r' ->
       (Test_R2 r' =? Test_R2 r)%float = false) /\
    ((forall k r', Py.dict_get Toy.printed_results k = Ok r' -> is_nan (Test_R2 r') = false) ->
     (forall k r', In k before -> Py.dict_get Toy.printed_results k = Ok r' ->
        (Test_R2 r' <? Test_R2 r)%float = true) /\
     (forall k r', In k after -> Py.dict_get Toy.printed_results k = Ok r' ->
        (Test_R2 r' <=? Test_R2 r)%float = true)).
Proof.
  assert (H : Toy.printed_results <> []) by discriminate.
  split; [exact H|]. split; [vm_compute; reflexivity|].
  exact (best_model_name_stable_argmax Toy.printed_results H).
Defined.

(** C2 (as amended). For as many coefficients as features, the
    [feature_importance] frame is returned and holds the rows of the
    DataFrame (each feature with its coefficient and its magnitude), each
    once, in descending order of absolute coefficient with the NaN
    magnitudes last: a row is followed only by rows of NaN magnitude or of
    a magnitude below or equal to its own.  The order among rows of equal
    magnitude is that of numpy's quicksort kernel. *)
Theorem feature_importance_is_descending
    (feature_names : list string) (coefficients : vec) :
  length feature_names = length coefficients ->
  exists df ranking,
    DataFrame feature_names coefficients = Ok df /\
    map Feature df = feature_names /\
    map Coefficient df = coefficients /\
    map Abs_Coefficient df = map PrimFloat.abs coefficients /\
    feature_importance np.aquicksort feature_names coefficients = Ok ranking /\
    Permutation ranking df /\
    StronglySorted
      (fun r r' => descending (Abs_Coefficient r) (Abs_Coefficient r')) ranking.
Proof.
  intros Hlen. apply feature_importance_by_kernel; [exact Hlen|].
  apply aquicksort_sorts.
Qed.

Lemma feature_importance_is_descending_witness :
  (exists ranking,
     feature_importance np.aquicksort Toy.printed_features Toy.printed_coefficients
     = Ok ranking /\
     map Feature ranking
     = ["COPD_prevalence"; "CKD_prevalence"; "anycondition_prevalence";
        "older_adults_pct"; "PCTPOV017_2018"; "Employed_2018"; "PCTPOVALL_2018";
        "young_adults_pct"; "diabetes_prevalence"; "Civilian_labor_force_2018"]%string) /\
  (exists ranking,
     feature_importance np.aquicksort Toy.mixed_features Toy.mixed_coefficients
     = Ok ranking /\
     map Feature ranking
     = ["k"; "q"; "f"; "p"; "s"; "g"; "h"; "i"; "m"; "n"; "a"; "b"; "u"; "e"; "t";
        "j"; "r"; "o"; "d"; "c"; "l"]%string /\
     map Coefficient ranking
     = [3; -3; -2; 2; 1; 1; 1; -1; -0.75; 0.75; 0.5; -0.5; 0.5; 0.25; -0.25; 0.125;
        0.0625; 0; 0; nan; nan]%float) /\
  exists df ranking,
    DataFrame Toy.mixed_features Toy.mixed_coefficients = Ok df /\
    map Feature df = Toy.mixed_features /\
    map Coefficient df = Toy.mixed_coefficients /\
    map Abs_Coefficient df = map PrimFloat.abs Toy.mixed_coefficients /\
    feature_importance np.aquicksort Toy.mixed_features Toy.mixed_coefficients
    = Ok ranking /\
    Permutation ranking df /\
    StronglySorted
      (fun r r' => descending (Abs_Coefficient r) (Abs_Coefficient r')) ranking.
Proof.
  split; [eexists; split; vm_compute; reflexivity|].
  split; [eexists; split; [|split]; vm_compute; reflexivity|].
  apply (feature_importance_is_descending Toy.mixed_features Toy.mixed_coefficients).
  reflexivity.
Defined.

(** C2 (counterexample). Eighteen coefficients that are all zero, as a
    lasso fit leaves them: numpy's quicksort kernel partitions the eighteen
    equal keys and returns the features in the order a, b, q, p, ..., c, r,
    where a stable sort keeps a, b, c, ..., r. *)
Lemma quicksort_reorders_equal_magnitudes :
  exists df ranking,
    DataFrame Toy.letters (repeat 0%float 18) = Ok df /\
    feature_importance np.aquicksort Toy.letters (repeat 0%float 18) = Ok ranking /\
    map Feature (stable_descending df) = Toy.letters /\
    map Feature ranking
    = ["a"; "b"; "q"; "p"; "o"; "n"; "m"; "l"; "k"; "j"; "i"; "h"; "g"; "f"; "e";
       "d"; "c"; "r"]%string /\
    ranking <> stable_descending df.
Proof.
  eexists. eexists. split; [vm_compute; reflexivity|].
  split; [vm_compute; reflexivity|].
  split; [vm_compute; reflexivity|].
  split; [vm_compute; reflexivity|].
  intros H. apply (f_equal (fun l => map Feature (firstn 3 l))) in H.
  vm_compute in H. discriminate.
Qed.

(** C3 (the code at the failing input). With coefficients 0.1 for [a] and
    -0.9 for [b], the line "Strongest positive predictor" names [b] with
    its coefficient -0.9: on every ranking it prints the first row, the
    one of largest magnitude, whatever its sign.  The line "Strongest
    negative predictor" is filtered by sign and names [b] too. *)
Lemma strongest_positive_line_reports_a_negative_coefficient :
  importance_report np.aquicksort "Ridge" ["a"; "b"]%string [0.1; -0.9]%float
  = Ok [ImportanceHeader "Ridge";
        Text "Top 10 Most Important Features:";
        Top10 [("b"%string, (-0.9)%float); ("a"%string, 0.1%float)];
        Text "Model Summary:";
        TotalFeatures 2; NonZeroFeatures 2; PositiveImpact 1; NegativeImpact 1;
        StrongestPositive "b" (-0.9);
        StrongestNegative "b" (-0.9)] /\
  (forall feature_names coefficients top rest,
     exists lines,
       model_summary feature_names coefficients (top :: rest) = Ok lines /\
       In (StrongestPositive (Feature top) (Coefficient top)) lines).
Proof.
  split; [vm_compute; reflexivity|]. exact strongest_positive_is_first_row.
Qed.

(** C4. For every estimator of [models] (its names being the keys of a
    dict, hence distinct), once the loop has run, [results] holds under
    the estimator's name the record made of the train R², the test R², the
    test RMSE and the test MAE of the estimator fitted on the training
    partition, and of an overfitting score that is exactly the train R²
    minus the test R², whatever its sign. *)
Theorem results_record_of_every_estimator
    (estimator : Type)
    (fit : estimator -> frame -> vec -> res estimator)
    (predict : estimator -> frame -> res vec)
    (nb nb' : notebook estimator) (name : string) (model : estimator) :
  NoDup (Py.keys (models nb)) ->
  comparison_loop fit predict nb = Ok nb' ->
  In (name, model) (Py.items (models nb)) ->
  exists model' y_train_pred y_test_pred train_metrics test_metrics,
    fit model (X_train nb) (y_train nb) = Ok model' /\
    predict model' (X_train nb) = Ok y_train_pred /\
    predict model' (X_test nb) = Ok y_test_pred /\
    calculate_metrics (y_train nb) y_train_pred = Ok train_metrics /\
    calculate_metrics (y_test nb) y_test_pred = Ok test_metrics /\
    Py.dict_get (results nb') name =
      Ok {| Train_R2 := R2 train_metrics;
            Test_R2 := R2 test_metrics;
            Test_RMSE := RMSE test_metrics;
            Test_MAE := MAE test_metrics;
            Overfitting := (R2 train_metrics - R2 test_metrics)%float |}.
Proof.
  intros Hnd Hloop Hin.
  destruct (for_items_inv estimator fit predict _ _ _ Hloop) as (_ & _ & _ & Hrec).
  destruct (Hrec Hnd name model Hin)
    as (m' & ytr & yte & trm & tem & F & P1 & P2 & C1 & C2 & _ & _ & G).
  exists m', ytr, yte, trm, tem. repeat split; assumption.
Qed.

Lemma results_record_of_every_estimator_witness :
  exists nb' : notebook Toy.linear,
    comparison_loop Toy.fit Toy.predict Toy.session = Ok nb' /\
    (exists r, Py.dict_get (results nb') "Lasso" = Ok r /\
               (Overfitting r <? 0)%float = true /\
               Overfitting r = (Train_R2 r - Test_R2 r)%float) /\
    exists model' y_train_pred y_test_pred train_metrics test_metrics,
      Toy.fit (Toy.Lasso 1) (X_train Toy.session) (y_train Toy.session) = Ok model' /\
      Toy.predict model' (X_train Toy.session) = Ok y_train_pred /\
      Toy.predict model' (X_test Toy.session) = Ok y_test_pred /\
      calculate_metrics (y_train Toy.session) y_train_pred = Ok train_metrics /\
      calculate_metrics (y_test Toy.session) y_test_pred = Ok test_metrics /\
      Py.dict_get (results nb') "Lasso" =
        Ok {| Train_R2 := R2 train_metrics;
              Test_R2 := R2 test_metrics;
              Test_RMSE := RMSE test_metrics;
              Test_MAE := MAE test_metrics;
              Overfitting := (R2 train_metrics - R2 test_metrics)%float |}.
Proof.
  eexists. split; [vm_compute; reflexivity|]. split.
  - eexists. split; [vm_compute; reflexivity|]. split; vm_compute; reflexivity.
  - apply (results_record_of_every_estimator Toy.linear Toy.fit Toy.predict Toy.session).
    + unfold Py.keys. simpl. repeat constructor; simpl; intuition discriminate.
    + vm_compute. reflexivity.
    + simpl. right. right. left. reflexivity.
Defined.

(** C5 (as amended). On targets and predictions that pass the validation of
    the metrics (equal lengths, at least one row, finite values),
    [calculate_metrics] returns its bundle: the division of the MAPE line
    is not guarded and raises nothing.  When some target is zero and the
    prediction of that row is not, the quotient of the row is infinite and
    so is the MAPE of the bundle.  The quotient of a row is NaN exactly
    when its target and its prediction are both zero; the mean of the
    Series skips these rows, so that the MAPE is 100 times the mean of the
    other quotients, and NaN when every row is such a row. *)
Theorem mape_division_by_zero_target (y_true y_pred : vec) :
  length y_true = length y_pred -> 1 <= length y_true ->
  (Z.of_nat (length y_true) <= PY_SSIZE_T_MAX)%Z ->
  forallb is_finite y_true = true -> forallb is_finite y_pred = true ->
  exists m,
    calculate_metrics y_true y_pred = Ok m /\
    (forall i, i < length y_true ->
       (nth i y_true 0 =? 0)%float = true -> (nth i y_pred 0 =? 0)%float = false ->
       MAPE m = infinity) /\
    (forall i, i < length y_true ->
       is_nan (nth i (absolute_percentage_errors y_true y_pred) 0%float)
       = (nth i y_true 0 =? 0)%float && (nth i y_pred 0 =? 0)%float) /\
    MAPE m
    = ((if (length (kept_errors y_true y_pred) =? 0)%nat then nan
        else np.mean (kept_errors y_true y_pred)) * 100)%float /\
    ((forall i, i < length y_true ->
        (nth i y_true 0 =? 0)%float = true /\ (nth i y_pred 0 =? 0)%float = true) ->
     is_nan (MAPE m) = true).
Proof.
  intros Hlen Hn Hbig F1 F2.
  assert (Hbig' : (Z.of_nat (length y_true) < 2 ^ 63)%Z)
    by (unfold PY_SSIZE_T_MAX in Hbig; lia).
  destruct (calculate_metrics_validated y_true y_pred) as (m & Hm & Hmape).
  { unfold sklearn.check_reg_targets. rewrite Hlen, Nat.eqb_refl, F1, F2. simpl.
    destruct (length y_pred =? 0) eqn:E; [apply Nat.eqb_eq in E; lia|reflexivity]. }
  assert (Habs : forall x, In x (absolute_percentage_errors y_true y_pred) ->
                   exists z, x = PrimFloat.abs z).
  { intros x Hx. unfold absolute_percentage_errors in Hx. apply in_map_iff in Hx.
    destruct Hx as (z & <- & _). eauto. }
  assert (Hrow : forall i, i < length y_true ->
            is_nan (nth i (absolute_percentage_errors y_true y_pred) 0%float)
            = (nth i y_true 0 =? 0)%float && (nth i y_pred 0 =? 0)%float).
  { intros i Hi. rewrite errors_nth by lia.
    apply IEEE.quotient_is_nan; apply forallb_nth; try assumption; lia. }
  assert (Hkept : MAPE m
                  = ((if (length (kept_errors y_true y_pred) =? 0)%nat then nan
                      else np.mean (kept_errors y_true y_pred)) * 100)%float).
  { rewrite Hmape, (nanmean_kept _ Habs). reflexivity. }
  exists m. split; [exact Hm|]. split; [|split; [exact Hrow|split; [exact Hkept|]]].
  - intros i Hi Ht Hp. rewrite Hmape.
    rewrite nanmean_with_infinity.
    + apply IEEE.infinity_times_100.
    + exact Habs.
    + apply (errors_have_infinity y_true y_pred i); try assumption. lia.
    + pose proof (errors_length y_true y_pred). lia.
  - intros Hall. rewrite Hkept. unfold kept_errors. rewrite filter_none; [reflexivity|].
    intros x Hx. destruct (In_nth _ _ 0%float Hx) as (i & Hi & <-).
    rewrite errors_length_eq in Hi by exact Hlen.
    rewrite (Hrow i Hi). destruct (Hall i Hi) as [-> ->]. reflexivity.
Qed.

Lemma mape_division_by_zero_target_witness :
  calculate_metrics [0; 6]%float [1; 6]%float
  = Ok {| R2 := 0.94444444444444442; RMSE := 0.70710678118654757;
          MAE := 0.5; MAPE := infinity |} /\
  calculate_metrics [0; 0]%float [0; 0]%float
  = Ok {| R2 := 1; RMSE := 0; MAE := 0; MAPE := nan |} /\
  calculate_metrics [0; 4; 8]%float [0; 5; 8]%float
  = Ok {| R2 := 0.96875; RMSE := 0.57735026918962573;
          MAE := 0.33333333333333331; MAPE := 12.5 |} /\
  exists m,
    calculate_metrics [0; 6]%float [1; 6]%float = Ok m /\
    (forall i, i < 2 ->
       (nth i [0; 6]%float 0 =? 0)%float = true ->
       (nth i [1; 6]%float 0 =? 0)%float = false ->
       MAPE m = infinity) /\
    (forall i, i < 2 ->
       is_nan (nth i (absolute_percentage_errors [0; 6]%float [1; 6]%float) 0%float)
       = (nth i [0; 6]%float 0 =? 0)%float && (nth i [1; 6]%float 0 =? 0)%float) /\
    MAPE m
    = ((if (length (kept_errors [0; 6]%float [1; 6]%float) =? 0)%nat then nan
        else np.mean (kept_errors [0; 6]%float [1; 6]%float)) * 100)%float /\
    ((forall i, i < 2 ->
        (nth i [0; 6]%float 0 =? 0)%float = true /\
        (nth i [1; 6]%float 0 =? 0)%float = true) ->
     is_nan (MAPE m) = true).
Proof.
  split; [vm_compute; reflexivity|].
  split; [vm_compute; reflexivity|].
  split; [vm_compute; reflexivity|].
  apply (mape_division_by_zero_target [0; 6]%float [1; 6]%float);
    try reflexivity; unfold PY_SSIZE_T_MAX; simpl; lia.
Defined.

(** C5 (counterexample). The first target is zero and so is its
    prediction: the quotient 0/0 of that row is NaN, the mean of the Series
    skips it, and the MAPE of the bundle is the finite 0.  (With a target
    that is not finite next to the zero one, the metrics of scikit-learn
    raise [ValueError] before the MAPE line is reached.) *)
Lemma mape_skips_zero_by_zero :
  (nth 0 [0; 1]%float 0 =? 0)%float = true /\
  is_nan (nth 0 (absolute_percentage_errors [0; 1]%float [0; 1]%float) 0%float) = true /\
  calculate_metrics [0; 1]%float [0; 1]%float
  = Ok {| R2 := 1; RMSE := 0; MAE := 0; MAPE := 0 |} /\
  is_finite 0%float = true /\
  calculate_metrics [0%float; infinity] [1; 1]%float = Raise ValueError.
Proof. repeat split; vm_compute; reflexivity. Qed.

(** C6 (as amended). For targets that are finite and predictions that
    equal them row by row, over at least two rows, the bundle has R² equal
    to 1.0 and RMSE and MAE equal to 0. *)
Theorem perfect_prediction_metrics (y_true y_pred : vec) :
  perfect y_true y_pred ->
  2 <= length y_true -> (Z.of_nat (length y_true) <= PY_SSIZE_T_MAX)%Z ->
  exists m,
    calculate_metrics y_true y_pred = Ok m /\
    R2 m = 1%float /\ RMSE m = 0%float /\ MAE m = 0%float.
Proof.
  intros Hp Hn Hbig.
  assert (Hbig' : (Z.of_nat (length y_true) < 2 ^ 63)%Z)
    by (unfold PY_SSIZE_T_MAX in Hbig; lia).
  destruct (perfect_residuals _ _ Hp) as (L & F1 & F2 & S1 & S2).
  assert (Hcheck : sklearn.check_reg_targets y_true y_pred = Ok tt).
  { unfold sklearn.check_reg_targets. rewrite L, Nat.eqb_refl, F1, F2. simpl.
    destruct (length y_true =? 0) eqn:E; [apply Nat.eqb_eq in E; lia|reflexivity]. }
  unfold calculate_metrics, sklearn.mean_squared_error, sklearn.mean_absolute_error,
    sklearn.r2_score.
  rewrite Hcheck. simpl. rewrite S1, S2, L.
  rewrite mean_zeros by lia. rewrite sum_zeros.
  destruct (length y_true <? 2) eqn:E; [apply Nat.ltb_lt in E; lia|].
  change (negb (0 =? 0)%float) with false. simpl.
  eexists. split; [reflexivity|]. simpl. repeat split.
Qed.

Lemma perfect_prediction_metrics_witness :
  perfect [3.5; 15.1; 0]%float [3.5; 15.1; (-0)]%float /\
  exists m,
    calculate_metrics [3.5; 15.1; 0]%float [3.5; 15.1; (-0)]%float = Ok m /\
    R2 m = 1%float /\ RMSE m = 0%float /\ MAE m = 0%float.
Proof.
  assert (H : perfect [3.5; 15.1; 0]%float [3.5; 15.1; (-0)]%float)
    by (repeat constructor).
  split; [exact H|].
  apply (perfect_prediction_metrics _ _ H); unfold PY_SSIZE_T_MAX; simpl; lia.
Defined.

(** C6 (counterexample). One row, predicted exactly: [r2_score] answers
    NaN for fewer than two samples, so the R² of the bundle is not 1.0.
    And two rows that are infinite and predicted exactly: the metrics
    refuse them with [ValueError]. *)
Lemma single_sample_r2_is_nan :
  perfect [5%float] [5%float] /\
  calculate_metrics [5%float] [5%float]
  = Ok {| R2 := nan; RMSE := 0; MAE := 0; MAPE := 0 |} /\
  (nan =? 1)%float = false /\
  Forall2 (fun t p => (p =? t)%float = true) [infinity; infinity] [infinity; infinity] /\
  calculate_metrics [infinity; infinity] [infinity; infinity] = Raise ValueError.
Proof.
  split; [repeat constructor|]. split; [vm_compute; reflexivity|].
  split; [vm_compute; reflexivity|]. split; [repeat constructor|].
  vm_compute. reflexivity.
Qed.

(** C7. Cell 3 builds the four-estimator dict in its order (linear
    regression, ridge with strength 1.0, lasso, elastic net).  If it
    completes and the recorded test R² values are 0.9668, 0.9672, 0.5398
    and 0.7694 to the four printed decimals, then [best_model_name] is
    ["Ridge"] and the stored winner is the fitted ridge estimator. *)
Theorem ridge_wins_the_comparison
    (estimator : Type) (LinearRegression : estimator)
    (Ridge Lasso : float -> estimator) (ElasticNet : float -> float -> estimator)
    (fit : estimator -> frame -> vec -> res estimator)
    (predict : estimator -> frame -> res vec)
    (nb nb' : notebook estimator) :
  cell3 LinearRegression Ridge Lasso ElasticNet fit predict nb = Ok nb' ->
  (exists r, Py.dict_get (results nb') "Linear Regression" = Ok r /\
             within 0.96675 0.96685 (Test_R2 r) = true) ->
  (exists r, Py.dict_get (results nb') "Ridge" = Ok r /\
             within 0.96715 0.96725 (Test_R2 r) = true) ->
  (exists r, Py.dict_get (results nb') "Lasso" = Ok r /\
             within 0.53975 0.53985 (Test_R2 r) = true) ->
  (exists r, Py.dict_get (results nb') "ElasticNet" = Ok r /\
             within 0.76935 0.76945 (Test_R2 r) = true) ->
  best_model_name (results nb') = Ok "Ridge"%string /\
  exists ridge,
    fit (Ridge 1%float) (X_train nb) (y_train nb) = Ok ridge /\
    best nb' = Some ("Ridge"%string, ridge).
Proof.
  intros H W1 W2 W3 W4.
  destruct (cell3_inv _ _ _ _ _ _ _ _ _ H)
    as (nb1 & name & r & bm & Hloop & Hbest & Hr & Hm & _ & _ & _ & _ & _ & Hres & _ & Hb & _).
  destruct (for_items_inv _ fit predict _ _ _ Hloop) as (_ & _ & Hkeys & Hrec).
  assert (Hk : Py.keys (results nb1)
               = ["Linear Regression"; "Ridge"; "Lasso"; "ElasticNet"]%string)
    by (rewrite Hkeys; reflexivity).
  rewrite Hres in *.
  pose proof (best_model_name_ridge _ Hk W1 W2 W3 W4) as Hridge.
  split; [exact Hridge|].
  assert (name = "Ridge"%string) by congruence. subst name.
  destruct (Hrec) with (name := "Ridge"%string) (model := Ridge 1%float)
    as (m' & _ & _ & _ & _ & F & _ & _ & _ & _ & G & _).
  - simpl. repeat constructor; simpl; intuition discriminate.
  - simpl. auto.
  - exists m'. split; [exact F|]. rewrite Hb. congruence.
Qed.

Lemma ridge_wins_the_comparison_witness :
  exists nb' : notebook Toy.linear,
    cell3 Toy.LinearRegression Toy.Ridge Toy.Lasso Toy.ElasticNet Toy.fit Toy.predict
      Toy.session = Ok nb' /\
    best_model_name (results nb') = Ok "Ridge"%string /\
    exists ridge,
      Toy.fit (Toy.Ridge 1%float) (X_train Toy.session) (y_train Toy.session) = Ok ridge /\
      best nb' = Some ("Ridge"%string, ridge).
Proof.
  eexists. split; [vm_compute; reflexivity|].
  apply (ridge_wins_the_comparison Toy.linear Toy.LinearRegression Toy.Ridge Toy.Lasso
           Toy.ElasticNet Toy.fit Toy.predict Toy.session).
  - vm_compute. reflexivity.
  - eexists. split; vm_compute; reflexivity.
  - eexists. split; vm_compute; reflexivity.
  - eexists. split; vm_compute; reflexivity.
  - eexists. split; vm_compute; reflexivity.
Defined.

(** C8 (as amended). Over library calls that leave the data, the console
    and the disk of the session as they find them, the loop of cell 3
    leaves them so too: what it assigns are the three dicts [models],
    [results] and [predictions].  After the whole cell the data and the
    disk are still untouched.  The winner reaches the disk only through
    cell 6: when the file cannot be opened, or [pickle.dump] fails, the
    cell raises that error; otherwise it adds the one file [model_path],
    leaving the data and [results] as they were. *)
Theorem comparison_touches_neither_data_nor_disk
    (estimator : Type) (LinearRegression : estimator)
    (Ridge Lasso : float -> estimator) (ElasticNet : float -> float -> estimator)
    (fit : estimator -> frame -> vec -> notebook estimator ->
           res (estimator * notebook estimator))
    (predict : estimator -> frame -> notebook estimator ->
               res (vec * notebook estimator))
    (open_wb : string -> res unit) (pickle_dump : estimator -> res unit)
    (nb nb3 : notebook estimator) :
  (forall model X y, keeps_frame (fit model X y)) ->
  (forall model X, keeps_frame (predict model X)) ->
  InPlace.cell3 LinearRegression Ridge Lasso ElasticNet fit predict nb = Ok nb3 ->
  (exists nb1,
     InPlace.comparison_loop fit predict
       (cell3_assignments LinearRegression Ridge Lasso ElasticNet nb) = Ok nb1 /\
     X_train nb1 = X_train nb /\ X_test nb1 = X_test nb /\
     y_train nb1 = y_train nb /\ y_test nb1 = y_test nb /\
     best nb1 = best nb /\ stdout nb1 = stdout nb /\ disk nb1 = disk nb /\
     models nb3 = models nb1 /\ results nb3 = results nb1 /\
     predictions nb3 = predictions nb1) /\
  (X_train nb3 = X_train nb /\ X_test nb3 = X_test nb /\
   y_train nb3 = y_train nb /\ y_test nb3 = y_test nb /\ disk nb3 = disk nb) /\
  exists name best_model,
    best nb3 = Some (name, best_model) /\
    (forall e, open_wb model_path = Raise e ->
       cell6 open_wb pickle_dump nb3 = Raise e) /\
    (forall e, open_wb model_path = Ok tt -> pickle_dump best_model = Raise e ->
       cell6 open_wb pickle_dump nb3 = Raise e) /\
    (open_wb model_path = Ok tt -> pickle_dump best_model = Ok tt ->
     exists nb6,
       cell6 open_wb pickle_dump nb3 = Ok nb6 /\
       disk nb6 = (model_path, best_model) :: disk nb /\
       X_train nb6 = X_train nb /\ X_test nb6 = X_test nb /\
       y_train nb6 = y_train nb /\ y_test nb6 = y_test nb /\
       results nb6 = results nb3).
Proof.
  intros Hfit Hpredict H.
  destruct (in_place_cell3_inv _ _ _ _ _ _ _ _ _ H)
    as (nb1 & name & r & bm & Hloop & Hbest & Hr & Hm
        & X1 & X2 & Y1 & Y2 & M & R & P & Hb & Hout & Hd).
  destruct (in_place_for_items_frame _ fit predict Hfit Hpredict _ _ _ Hloop)
    as (F1 & F2 & F3 & F4 & F5 & F6 & F7).
  simpl in F1, F2, F3, F4, F5, F6, F7.
  split; [|split].
  - exists nb1. repeat split; assumption.
  - repeat split; congruence.
  - exists name, bm. split; [exact Hb|]. split; [|split].
    + intros e He. unfold cell6. rewrite He. reflexivity.
    + intros e Ho Hp. unfold cell6. rewrite Ho, Hb. simpl. rewrite Hp. reflexivity.
    + intros Ho Hp.
      assert (E6 : exists nb6, cell6 open_wb pickle_dump nb3 = Ok nb6).
      { unfold cell6. rewrite Ho, Hb. simpl. rewrite Hp, R, Hr. simpl. eauto. }
      destruct E6 as [nb6 E6].
      destruct (cell6_inv _ _ _ _ _ E6)
        as (name' & bm' & r' & _ & Hb' & _ & _ & D & A1 & A2 & A3 & A4 & _ & A5 & _).
      exists nb6. rewrite Hb in Hb'. injection Hb' as <- <-.
      repeat split; try assumption; congruence.
Qed.

Lemma comparison_touches_neither_data_nor_disk_witness :
  exists nb3 : notebook Toy.linear,
    InPlace.cell3 Toy.LinearRegression Toy.Ridge Toy.Lasso Toy.ElasticNet
      (fun model X y => InPlace.returning (Toy.fit model X y))
      (fun model X => InPlace.returning (Toy.predict model X)) Toy.session = Ok nb3 /\
    (exists nb6,
       cell6 (Toy.open_wb ["../models/Linear_regressions_models"%string]) Toy.pickle_dump nb3
       = Ok nb6 /\
       map fst (disk nb6) = [model_path]) /\
    cell6 (Toy.open_wb ["../models"%string]) Toy.pickle_dump nb3 = Raise OSError /\
    (exists nb1,
       InPlace.comparison_loop
         (fun model X y => InPlace.returning (Toy.fit model X y))
         (fun model X => InPlace.returning (Toy.predict model X))
         (cell3_assignments Toy.LinearRegression Toy.Ridge Toy.Lasso Toy.ElasticNet Toy.session) = Ok nb1 /\
       X_train nb1 = X_train Toy.session /\ X_test nb1 = X_test Toy.session /\
       y_train nb1 = y_train Toy.session /\ y_test nb1 = y_test Toy.session /\
       best nb1 = best Toy.session /\ stdout nb1 = stdout Toy.session /\
       disk nb1 = disk Toy.session /\
       models nb3 = models nb1 /\ results nb3 = results nb1 /\
       predictions nb3 = predictions nb1) /\
    (X_train nb3 = X_train Toy.session /\ X_test nb3 = X_test Toy.session /\
     y_train nb3 = y_train Toy.session /\ y_test nb3 = y_test Toy.session /\
     disk nb3 = disk Toy.session) /\
    exists name best_model,
      best nb3 = Some (name, best_model) /\
      (forall e,
         Toy.open_wb ["../models/Linear_regressions_models"%string] model_path = Raise e ->
         cell6 (Toy.open_wb ["../models/Linear_regressions_models"%string])
           Toy.pickle_dump nb3 = Raise e) /\
      (forall e,
         Toy.open_wb ["../models/Linear_regressions_models"%string] model_path = Ok tt ->
         Toy.pickle_dump best_model = Raise e ->
         cell6 (Toy.open_wb ["../models/Linear_regressions_models"%string])
           Toy.pickle_dump nb3 = Raise e) /\
      (Toy.open_wb ["../models/Linear_regressions_models"%string] model_path = Ok tt ->
       Toy.pickle_dump best_model = Ok tt ->
       exists nb6,
         cell6 (Toy.open_wb ["../models/Linear_regressions_models"%string])
           Toy.pickle_dump nb3 = Ok nb6 /\
         disk nb6 = (model_path, best_model) :: disk Toy.session /\
         X_train nb6 = X_train Toy.session /\ X_test nb6 = X_test Toy.session /\
         y_train nb6 = y_train Toy.session /\ y_test nb6 = y_test Toy.session /\
         results nb6 = results nb3).
Proof.
  eexists. split; [vm_compute; reflexivity|].
  split; [eexists; split; vm_compute; reflexivity|].
  split; [vm_compute; reflexivity|].
  apply (comparison_touches_neither_data_nor_disk Toy.linear Toy.LinearRegression Toy.Ridge Toy.Lasso Toy.ElasticNet
           (fun model X y => InPlace.returning (Toy.fit model X y))
           (fun model X => InPlace.returning (Toy.predict model X))
           (Toy.open_wb ["../models/Linear_regressions_models"%string]) Toy.pickle_dump
           Toy.session).
  - intros model X y. apply returning_keeps_frame.
  - intros model X. apply returning_keeps_frame.
  - vm_compute. reflexivity.
Defined.

(** C8 (counterexample). The loop of cell 3 on the sample session: besides
    the metric records it stores the test predictions of the four
    estimators in [predictions] and leaves the estimators of [models]
    fitted; it determines no winner, which the rest of the cell does. *)
Lemma comparison_loop_fills_predictions_and_fits_models :
  exists nb1 : notebook Toy.linear,
    comparison_loop Toy.fit Toy.predict (cell3_assignments Toy.LinearRegression Toy.Ridge Toy.Lasso Toy.ElasticNet Toy.session) = Ok nb1 /\
    predictions (cell3_assignments Toy.LinearRegression Toy.Ridge Toy.Lasso Toy.ElasticNet Toy.session) = [] /\
    Py.keys (predictions nb1)
    = ["Linear Regression"; "Ridge"; "Lasso"; "ElasticNet"]%string /\
    Py.dict_get (models (cell3_assignments Toy.LinearRegression Toy.Ridge Toy.Lasso
                           Toy.ElasticNet Toy.session)) "Ridge"
    = Ok (Toy.Ridge 1) /\
    Toy.fitted (Toy.Ridge 1) = false /\
    (exists ridge, Py.dict_get (models nb1) "Ridge" = Ok ridge /\ Toy.fitted ridge = true) /\
    models nb1 <> models (cell3_assignments Toy.LinearRegression Toy.Ridge Toy.Lasso Toy.ElasticNet Toy.session) /\
    best nb1 = None.
Proof.
  eexists. split; [vm_compute; reflexivity|].
  split; [reflexivity|]. split; [vm_compute; reflexivity|].
  split; [reflexivity|]. split; [reflexivity|].
  split; [eexists; split; vm_compute; reflexivity|]. split; [|reflexivity].
  intros H. apply (f_equal (fun d => Py.dict_get d "Ridge")) in H.
  vm_compute in H. discriminate.
Qed.

(** The premise on the library calls is needed: with a [fit] that changes
    its training frame in place, the loop hands on a changed [X_train]. *)
Lemma in_place_fit_changes_the_data :
  exists nb1 : notebook Toy.linear,
    InPlace.comparison_loop Toy.fit_in_place
      (fun model X => InPlace.returning (Toy.predict model X))
      (cell3_assignments Toy.LinearRegression Toy.Ridge Toy.Lasso Toy.ElasticNet Toy.session) = Ok nb1 /\
    rows (X_train Toy.session) = [[(-1)%float]; [1%float]] /\
    rows (X_train nb1) = [[(-5)%float]; [(-3)%float]].
Proof. eexists. split; [vm_compute; reflexivity|]. split; reflexivity. Qed.

(** C9. The summary prints, once each, the count of positive-impact
    features, which is the number of coefficients strictly above zero, and
    the count of negative-impact features, the number strictly below zero;
    a coefficient equal to zero adds to neither; together with the zeros
    (and NaN) the two counts make up the number of coefficients, so their
    sum never exceeds it. *)
Theorem impact_counts_are_strict (coefficients : vec) :
  positive_count coefficients = length (filter (fun c => (0 <? c)%float) coefficients) /\
  negative_count coefficients = length (filter (fun c => (c <? 0)%float) coefficients) /\
  (forall before c after,
     coefficients = before ++ c :: after -> (c =? 0)%float = true ->
     positive_count coefficients = positive_count (before ++ after) /\
     negative_count coefficients = negative_count (before ++ after)) /\
  positive_count coefficients + negative_count coefficients
  + length (filter (fun c => (c =? 0)%float || is_nan c) coefficients)
  = length coefficients /\
  positive_count coefficients + negative_count coefficients <= length coefficients /\
  (forall feature_names ranking,
     exists rest,
       model_summary feature_names coefficients ranking
       = Ok ([Text "Model Summary:";
              TotalFeatures (length feature_names);
              NonZeroFeatures (nonzero_count coefficients);
              PositiveImpact (length (filter (fun c => (0 <? c)%float) coefficients));
              NegativeImpact (length (filter (fun c => (c <? 0)%float) coefficients))]
             ++ rest) /\
       forall n, ~ In (PositiveImpact n) rest /\ ~ In (NegativeImpact n) rest) /\
  (forall quicksort best_model_name feature_names lines,
     importance_report quicksort best_model_name feature_names coefficients = Ok lines ->
     forall n,
       (In (PositiveImpact n) lines <->
        n = length (filter (fun c => (0 <? c)%float) coefficients)) /\
       (In (NegativeImpact n) lines <->
        n = length (filter (fun c => (c <? 0)%float) coefficients))).
Proof.
  assert (Hsum : forall feature_names ranking,
            exists rest,
              model_summary feature_names coefficients ranking
              = Ok ([Text "Model Summary:";
                     TotalFeatures (length feature_names);
                     NonZeroFeatures (nonzero_count coefficients);
                     PositiveImpact (length (filter (fun c => (0 <? c)%float) coefficients));
                     NegativeImpact (length (filter (fun c => (c <? 0)%float) coefficients))]
                    ++ rest) /\
              forall n, ~ In (PositiveImpact n) rest /\ ~ In (NegativeImpact n) rest).
  { intros feature_names ranking. unfold model_summary, positive_count, negative_count.
    rewrite !sum_bool_map.
    destruct (0 <? length ranking) eqn:E.
    - destruct (iloc_0_nonempty _ E) as (top & ->). simpl bind.
      destruct (0 <? length (negative_features ranking)) eqn:E'.
      + destruct (iloc_0_nonempty _ E') as (neg & ->). simpl bind.
        exists [StrongestPositive (Feature top) (Coefficient top);
                StrongestNegative (Feature neg) (Coefficient neg)].
        split; [reflexivity|]. intros n. simpl. split; intuition discriminate.
      + exists [StrongestPositive (Feature top) (Coefficient top)].
        split; [reflexivity|]. intros n. simpl. split; intuition discriminate.
    - exists []. split; [reflexivity|]. intros n. simpl. tauto. }
  unfold positive_count, negative_count. rewrite !sum_bool_map.
  split; [reflexivity|]. split; [reflexivity|].
  pose proof (three_way_count coefficients) as H3.
  split; [|split; [exact H3|split; [lia|split; [exact Hsum|]]]].
  - intros before c after -> Hz. rewrite !sum_bool_map, !filter_app. simpl.
    pose proof (IEEE.sign_cases c) as Hc. rewrite Hz in Hc. simpl in Hc.
    destruct (0 <? c)%float, (c <? 0)%float; try contradiction.
    rewrite <- !filter_app. split; reflexivity.
  - intros quicksort best_model_name feature_names lines H n.
    unfold importance_report in H. bind_inv H.
    destruct (Hsum feature_names a) as (rest & Hs & Hrest). rewrite Hs in H. simpl in H.
    injection H as <-. destruct (Hrest n) as [Hp Hn]. simpl. split; split.
    + intros [Q|[Q|[Q|[Q|[Q|[Q|[Q|[Q|Hin]]]]]]]]; try discriminate; [congruence|tauto].
    + intros ->. tauto.
    + intros [Q|[Q|[Q|[Q|[Q|[Q|[Q|[Q|Hin]]]]]]]]; try discriminate; [congruence|tauto].
    + intros ->. tauto.
Qed.

(** C10. When no coefficient is strictly negative, the selection
    [negative_features] of the ranking is empty, the summary completes
    without raising, and it has no "Strongest negative predictor" line:
    the lookup [iloc[0]] on the selection sits under [len(...) > 0], so
    that the summary raises on no ranking at all. *)
Theorem no_negative_coefficient_no_negative_line
    (quicksort : vec -> list nat) (feature_names : list string) (coefficients : vec)
    (ranking : list importance) :
  feature_importance quicksort feature_names coefficients = Ok ranking ->
  (forall c, In c coefficients -> (c <? 0)%float = false) ->
  negative_features ranking = [] /\
  (exists lines,
     model_summary feature_names coefficients ranking = Ok lines /\
     forall feature c, ~ In (StrongestNegative feature c) lines) /\
  (forall any_names any_coefficients any_ranking,
     exists lines, model_summary any_names any_coefficients any_ranking = Ok lines).
Proof.
  intros Hfi Hneg.
  assert (Hnone : negative_features ranking = []).
  { unfold feature_importance in Hfi.
    destruct (DataFrame feature_names coefficients) as [df|] eqn:Edf; simpl in Hfi; [|discriminate].
    unfold negative_features. apply filter_none. intros r Hr.
    apply Hneg. apply (DataFrame_In _ _ _ Edf). eapply sort_values_In; eauto. }
  split; [exact Hnone|]. split; [|exact model_summary_total].
  unfold model_summary. rewrite Hnone. simpl.
  destruct (0 <? length ranking) eqn:E.
  - destruct (iloc_0_nonempty _ E) as (top & ->). simpl.
    eexists. split; [reflexivity|].
    intros feature c H. simpl in H. intuition discriminate.
  - eexists. split; [reflexivity|].
    intros feature c H. simpl in H. intuition discriminate.
Qed.

Lemma no_negative_coefficient_no_negative_line_witness :
  exists ranking,
    feature_importance np.aquicksort ["a"; "b"; "c"]%string [0.1; 0.9; 0]%float = Ok ranking /\
    negative_features ranking = [] /\
    (exists lines,
       model_summary ["a"; "b"; "c"]%string [0.1; 0.9; 0]%float ranking = Ok lines /\
       forall feature c, ~ In (StrongestNegative feature c) lines) /\
    (forall any_names any_coefficients any_ranking,
       exists lines, model_summary any_names any_coefficients any_ranking = Ok lines).
Proof.
  eexists. split; [vm_compute; reflexivity|].
  apply (no_negative_coefficient_no_negative_line np.aquicksort
           ["a"; "b"; "c"]%string [0.1; 0.9; 0]%float).
  - vm_compute. reflexivity.
  - intros c [<-|[<-|[<-|[]]]]; vm_compute; reflexivity.
Defined.
